(** * djblets: the avatar service registry and the atomic counter field

    A shallow embedding of [djblets/avatars/registry.py] and
    [djblets/db/fields/counter_field.py].  Methods that mutate [self], the
    site configuration or the database are functions in a state-and-exception
    monad: a raised exception keeps the state reached so far, as in Python. *)

From stdpp Require Import gmap strings list.
From Stdlib Require Import ZArith.

Set Warnings "-clear-no-such-hyp".

Open Scope string_scope.
Open Scope list_scope.

(** ** State and exceptions *)

Inductive Outcome (E A : Type) : Type :=
| Ok (a : A)
| Raise (e : E).
Arguments Ok {E A} a.
Arguments Raise {E A} e.

Definition M (S E A : Type) : Type := S → Outcome E A * S.

Definition ret {S E A} (a : A) : M S E A := λ s, (Ok a, s).

Definition raise {S E A} (e : E) : M S E A := λ s, (Raise e, s).

Definition bind {S E A B} (m : M S E A) (k : A → M S E B) : M S E B :=
  λ s, match m s with
       | (Ok a, s') => k a s'
       | (Raise e, s') => (Raise e, s')
       end.

Definition modify {S E} (f : S → S) : M S E unit := λ s, (Ok tt, f s).

Definition gets {S E A} (f : S → A) : M S E A := λ s, (Ok (f s), s).

(** [try: m except caught: handler]. *)
Definition try_except {S E A}
    (m : M S E A) (caught : E → bool) (handler : E → M S E A) : M S E A :=
  λ s, match m s with
       | (Ok a, s') => (Ok a, s')
       | (Raise e, s') => if caught e then handler e s' else (Raise e, s')
       end.

(** [for x in xs: body(x)]. *)
Fixpoint for_each {S E A} (xs : list A) (body : A → M S E unit) : M S E unit :=
  match xs with
  | [] => ret tt
  | x :: rest => bind (body x) (λ _, for_each rest body)
  end.

(** [if c: body]. *)
Definition when {S E} (c : bool) (body : M S E unit) : M S E unit :=
  if c then body else ret tt.

Notation "'let!' x ':=' m 'in' k" := (bind m (λ x, k))
  (at level 10, x name, m at level 200, k at level 200, only parsing).
Notation "m ;;; k" := (bind m (λ _, k))
  (at level 100, k at level 200, right associativity, only parsing).

(** ** djblets.avatars.registry *)

Module Avatars.

(** An avatar service object.  [ident] is the identity of the Python object:
    two services with the same [avatar_service_id] are still two objects. *)
Record AvatarService : Type := {
  avatar_service_id : string;
  is_configurable : bool;
  ident : nat;
}.

#[global] Instance AvatarService_eq_dec : EqDecision AvatarService.
Proof. solve_decision. Defined.

(** Modelled from the spec: the built-in Gravatar-like default service
    ([djblets.avatars.services.gravatar] is not part of the sources). *)
Definition GravatarService : AvatarService :=
  {| avatar_service_id := "gravatar"; is_configurable := false; ident := 0 |}.

(** The keys of the error template table. *)
Inductive ErrorKey : Type :=
| ALREADY_REGISTERED
| ATTRIBUTE_REGISTERED
| NOT_REGISTERED
| UNREGISTER
| DISABLED_SERVICE_DEFAULT
| UNKNOWN_SERVICE_DEFAULT
| UNKNOWN_SERVICE_DISABLED
| UNKNOWN_SERVICE_ENABLED.

#[global] Instance ErrorKey_eq_dec : EqDecision ErrorKey.
Proof. solve_decision. Defined.

(** [self.format_error(key, service_id=...)]: the template and the value
    interpolated into it. *)
Record ErrorMessage : Type := format_error {
  error_key : ErrorKey;
  error_arg : string;
}.

#[global] Instance ErrorMessage_eq_dec : EqDecision ErrorMessage.
Proof. solve_decision. Defined.

(** The error taxonomy.  [AvatarServiceNotFoundError] is the registry's
    [lookup_error_class], a subclass of [ItemLookupError]. *)
Inductive Exception : Type :=
| AvatarServiceNotFoundError (msg : ErrorMessage)
| DisabledServiceError (msg : ErrorMessage)
| AlreadyRegisteredError (msg : ErrorMessage)
| NotRegisteredError (msg : ErrorMessage)
| RecursionError.

#[global] Instance Exception_eq_dec : EqDecision Exception.
Proof. solve_decision. Defined.

Definition lookup_error_class : ErrorMessage → Exception :=
  AvatarServiceNotFoundError.

(** [except ItemLookupError]. *)
Definition is_ItemLookupError (e : Exception) : bool :=
  match e with AvatarServiceNotFoundError _ => true | _ => false end.

(** [except DisabledServiceError]. *)
Definition is_DisabledServiceError (e : Exception) : bool :=
  match e with DisabledServiceError _ => true | _ => false end.

(** Modelled from the spec: the key/value store behind
    [SiteConfiguration.objects.get_current()].  Two keys are used,
    [avatars_enabled_services] (a list of strings) and
    [avatars_default_service] (a string or null); [None] is a key that is
    absent or null.  [settings] are the values held by the configuration
    object, [stored] what the last [save()] committed. *)
Record Settings : Type := {
  ENABLED_SERVICES_KEY : option (list string);
  DEFAULT_SERVICE_KEY : option string;
}.

Record SiteConfiguration : Type := {
  settings : Settings;
  stored : Settings;
}.

(** The registry object together with the two collaborators its methods
    write to: the site configuration and the error log. *)
Record Registry : Type := {
  populated : bool;
  registry : gmap string AvatarService;
  _enabled_services : gset string;
  _default_service_id : option string;
  siteconfig : SiteConfiguration;
  logged : list ErrorMessage;
}.

Definition set_populated (b : bool) (r : Registry) : Registry :=
  {| populated := b; registry := registry r;
     _enabled_services := _enabled_services r;
     _default_service_id := _default_service_id r;
     siteconfig := siteconfig r; logged := logged r |}.

Definition set_registry (m : gmap string AvatarService) (r : Registry) : Registry :=
  {| populated := populated r; registry := m;
     _enabled_services := _enabled_services r;
     _default_service_id := _default_service_id r;
     siteconfig := siteconfig r; logged := logged r |}.

Definition set_enabled (e : gset string) (r : Registry) : Registry :=
  {| populated := populated r; registry := registry r;
     _enabled_services := e;
     _default_service_id := _default_service_id r;
     siteconfig := siteconfig r; logged := logged r |}.

Definition set_default (d : option string) (r : Registry) : Registry :=
  {| populated := populated r; registry := registry r;
     _enabled_services := _enabled_services r;
     _default_service_id := d;
     siteconfig := siteconfig r; logged := logged r |}.

Definition set_siteconfig (c : SiteConfiguration) (r : Registry) : Registry :=
  {| populated := populated r; registry := registry r;
     _enabled_services := _enabled_services r;
     _default_service_id := _default_service_id r;
     siteconfig := c; logged := logged r |}.

Definition set_logged (l : list ErrorMessage) (r : Registry) : Registry :=
  {| populated := populated r; registry := registry r;
     _enabled_services := _enabled_services r;
     _default_service_id := _default_service_id r;
     siteconfig := siteconfig r; logged := l |}.

Abbreviation Method := (M Registry Exception).

(** [AvatarServiceRegistry.__init__], with the site configuration the
    process finds in the database. *)
Definition init (c : SiteConfiguration) : Registry :=
  {| populated := false; registry := ∅; _enabled_services := ∅;
     _default_service_id := None; siteconfig := c; logged := [] |}.

Definition default_avatar_service_classes : list AvatarService :=
  [GravatarService].

(** [get_defaults]. *)
Definition get_defaults : list AvatarService := default_avatar_service_classes.

(** [logging.error(msg)]. *)
Definition logging_error (msg : ErrorMessage) : Method unit :=
  modify (λ r, set_logged (logged r ++ [msg]) r).

(** [siteconfig.set(key, value)] for each of the two keys, and
    [siteconfig.save()]. *)
Definition set_enabled_services_key (value : list string) (c : SiteConfiguration)
    : SiteConfiguration :=
  {| settings := {| ENABLED_SERVICES_KEY := Some value;
                    DEFAULT_SERVICE_KEY := DEFAULT_SERVICE_KEY (settings c) |};
     stored := stored c |}.

Definition set_default_service_key (value : option string) (c : SiteConfiguration)
    : SiteConfiguration :=
  {| settings := {| ENABLED_SERVICES_KEY := ENABLED_SERVICES_KEY (settings c);
                    DEFAULT_SERVICE_KEY := value |};
     stored := stored c |}.

Definition siteconfig_save (c : SiteConfiguration) : SiteConfiguration :=
  {| settings := settings c; stored := settings c |}.

(** [save]: the list of the enabled ids (in the order of [elements]) and
    the default id are set, and the configuration is saved. *)
Definition save : Method unit :=
  modify (λ r,
    let c := siteconfig r in
    let c := set_enabled_services_key (elements (_enabled_services r)) c in
    let c := set_default_service_key (_default_service_id r) c in
    set_siteconfig (siteconfig_save c) r).

(** Modelled from the spec: a user, with the preferred service id kept in
    the user's settings. *)
Record User : Type := {
  preferred_service_id : option string;
}.

Record AvatarSettingsManager : Type := {
  settings_user : User;
}.

Section Methods.

(** [self.populate()], as the methods below call it: the call is dispatched
    on the object, so it is a parameter here and bound to
    [AvatarServiceRegistry.populate] afterwards. *)
Variable self_populate : Method unit.

(** Modelled from the spec: [Registry.get] of the base class, which
    populates, then looks the value up in the index of the attribute;
    [avatar_service_id] is the only lookup attribute. *)
Definition get (attr_name attr_value : string) : Method AvatarService :=
  self_populate ;;;
  if bool_decide (attr_name = "avatar_service_id") then
    let! m := gets registry in
    match m !! attr_value with
    | Some item => ret item
    | None => raise (lookup_error_class (format_error NOT_REGISTERED attr_value))
    end
  else raise (lookup_error_class (format_error NOT_REGISTERED attr_value)).

(** Modelled from the spec: [item in self] of the base class. *)
Definition contains (item : AvatarService) : Method bool :=
  self_populate ;;;
  let! m := gets registry in
  ret (bool_decide (m !! avatar_service_id item = Some item)).

(** Modelled from the spec: [Registry.register] of the base class. *)
Definition register (item : AvatarService) : Method unit :=
  self_populate ;;;
  let! m := gets registry in
  if bool_decide (m !! avatar_service_id item = Some item) then
    raise (AlreadyRegisteredError
             (format_error ALREADY_REGISTERED (avatar_service_id item)))
  else match m !! avatar_service_id item with
       | Some _ =>
           raise (AlreadyRegisteredError
                    (format_error ATTRIBUTE_REGISTERED (avatar_service_id item)))
       | None => modify (set_registry (<[avatar_service_id item := item]> m))
       end.

(** Modelled from the spec: [Registry.unregister] of the base class. *)
Definition base_unregister (item : AvatarService) : Method unit :=
  self_populate ;;;
  let! m := gets registry in
  if bool_decide (m !! avatar_service_id item = Some item) then
    modify (set_registry (delete (avatar_service_id item) m))
  else
    raise (NotRegisteredError (format_error UNREGISTER (avatar_service_id item))).

(** Modelled from the spec: [Registry.populate] of the base class.  The
    flag is set before the defaults are registered, so that population
    does not start again from [register]. *)
Definition base_populate : Method unit :=
  let! p := gets populated in
  if p then ret tt
  else
    modify (set_populated true) ;;;
    for_each get_defaults register.

Definition get_avatar_service (avatar_service_id : string) : Method AvatarService :=
  get "avatar_service_id" avatar_service_id.

Definition has_service (service_id : string) : Method bool :=
  try_except
    (let! item := get_avatar_service service_id in contains item)
    is_ItemLookupError
    (λ _, ret false).

Definition is_enabled (service_id : string) : Method bool :=
  let! h := has_service service_id in
  if h then
    let! e := gets _enabled_services in
    ret (bool_decide (service_id ∈ e))
  else ret false.

Definition default_service : Method (option AvatarService) :=
  self_populate ;;;
  let! d := gets _default_service_id in
  match d with
  | None => ret None
  | Some sid => let! item := get_avatar_service sid in ret (Some item)
  end.

Definition set_default_service
    (service : option AvatarService) (save_ : bool) : Method unit :=
  self_populate ;;;
  match service with
  | None => modify (set_default None)
  | Some item =>
      let! known := contains item in
      if negb known then
        raise (lookup_error_class
                 (format_error UNKNOWN_SERVICE_DEFAULT (avatar_service_id item)))
      else
        let! en := is_enabled (avatar_service_id item) in
        if negb en then
          raise (DisabledServiceError
                   (format_error DISABLED_SERVICE_DEFAULT (avatar_service_id item)))
        else modify (set_default (Some (avatar_service_id item)))
  end ;;;
  when save_ save.

Definition disable_service (service_id : string) (save_ : bool) : Method unit :=
  let! h := has_service service_id in
  when (negb h)
    (raise (lookup_error_class
              (format_error UNKNOWN_SERVICE_DISABLED service_id))) ;;;
  modify (λ r, set_enabled (_enabled_services r ∖ {[service_id]}) r) ;;;
  let! ds := default_service in
  when (match ds with
        | Some item => bool_decide (avatar_service_id item = service_id)
        | None => false
        end)
    (set_default_service None true) ;;;
  when save_ save.

Definition enable_service (service_id : string) (save_ : bool) : Method unit :=
  let! h := has_service service_id in
  when (negb h)
    (raise (lookup_error_class
              (format_error UNKNOWN_SERVICE_ENABLED service_id))) ;;;
  modify (λ r, set_enabled ({[service_id]} ∪ _enabled_services r) r) ;;;
  when save_ save.

Definition unregister (service : AvatarService) : Method unit :=
  disable_service (avatar_service_id service) true ;;;
  base_unregister service.

(** [mapM] for the set comprehension of the getter. *)
Fixpoint collect {A B} (xs : list A) (f : A → Method B) : Method (list B) :=
  match xs with
  | [] => ret []
  | x :: rest => let! y := f x in let! ys := collect rest f in ret (y :: ys)
  end.

(** The [enabled_services] property. *)
Definition enabled_services : Method (list AvatarService) :=
  self_populate ;;;
  let! e := gets _enabled_services in
  collect (elements e) get_avatar_service.

(** The [configurable_services] property. *)
Definition configurable_services : Method (list AvatarService) :=
  self_populate ;;;
  let! l := enabled_services in
  ret (filter (λ s, is_configurable s = true) l).

(** The [enabled_services] setter.  [set(services)] keeps one copy of each
    object; the set of ids is iterated in the order of [elements]. *)
Definition set_enabled_services (services : list AvatarService) : Method unit :=
  self_populate ;;;
  let services := remove_dups services in
  for_each services (λ service,
    let! h := has_service (avatar_service_id service) in
    when (negb h)
      (raise (lookup_error_class
                (format_error UNKNOWN_SERVICE_ENABLED (avatar_service_id service))))) ;;;
  let new_service_ids : gset string :=
    list_to_set (avatar_service_id <$> services) in
  let! e := gets _enabled_services in
  let to_enable := new_service_ids ∖ e in
  let to_disable := e ∖ new_service_ids in
  for_each (elements to_disable) (λ sid, disable_service sid false) ;;;
  for_each (elements to_enable) (λ sid, enable_service sid false) ;;;
  let! ds := default_service in
  match ds with
  | Some item =>
      let! en := is_enabled (avatar_service_id item) in
      when (negb en) (set_default_service None true)
  | None => ret tt
  end ;;;
  save.

(** The body of [AvatarServiceRegistry.populate]. *)
Definition populate_body : Method unit :=
  let! p := gets populated in
  if p then ret tt
  else
    base_populate ;;;
    let! c := gets siteconfig in
    let avatar_service_ids := ENABLED_SERVICES_KEY (settings c) in
    match avatar_service_ids with
    | Some ids =>
        for_each ids (λ sid,
          let! h := has_service sid in
          if h then enable_service sid false
          else logging_error (format_error UNKNOWN_SERVICE_ENABLED sid))
    | None => ret tt
    end ;;;
    match DEFAULT_SERVICE_KEY (settings c) with
    | Some sid =>
        try_except
          (let! item := get "avatar_service_id" sid in
           set_default_service (Some item) true)
          (λ e, is_ItemLookupError e || is_DisabledServiceError e)
          (λ e,
             if is_ItemLookupError e then
               logging_error (format_error UNKNOWN_SERVICE_DEFAULT sid)
             else
               logging_error (format_error DISABLED_SERVICE_DEFAULT sid))
    | None => ret tt
    end ;;;
    save.

(** Modelled from the spec: the user-preference boundary,
    [settings_manager_class(user).avatar_service_id]. *)
Definition settings_manager_class (user : User) : AvatarSettingsManager :=
  {| settings_user := user |}.

Definition settings_avatar_service_id (m : AvatarSettingsManager) : option string :=
  preferred_service_id (settings_user m).

(** The loop of [for_user] over [(service_id, user_service_id)], which
    returns from the method at the first id that is usable and falls
    through to [self.default_service]. *)
Fixpoint for_user_loop (sids : list (option string)) : Method (option AvatarService) :=
  match sids with
  | [] => default_service
  | None :: rest => for_user_loop rest
  | Some sid :: rest =>
      let! h := has_service sid in
      if h then
        let! en := is_enabled sid in
        if en then
          let! item := get_avatar_service sid in ret (Some item)
        else for_user_loop rest
      else for_user_loop rest
  end.

Definition for_user (user : User) (service_id : option string)
    : Method (option AvatarService) :=
  let settings_manager := settings_manager_class user in
  let user_service_id := settings_avatar_service_id settings_manager in
  for_user_loop [service_id; user_service_id].

End Methods.

(** [AvatarServiceRegistry.populate].  A call of [self.populate()] made
    while the body runs enters the method again, one level deeper; [depth]
    bounds the nesting the interpreter allows.  The nested calls find
    [populated] set and return at the first line, so two levels are all
    the method ever uses. *)
Fixpoint populate_at (depth : nat) : Method unit :=
  match depth with
  | O => raise RecursionError
  | S d => populate_body (populate_at d)
  end.

Definition populate : Method unit := populate_at 2.

(** The public methods, as calls on a registry. *)
Inductive Call : Type :=
| call_register (item : AvatarService)
| call_unregister (item : AvatarService)
| call_enable_service (service_id : string) (save_ : bool)
| call_disable_service (service_id : string) (save_ : bool)
| call_set_default_service (service : option AvatarService) (save_ : bool)
| call_set_enabled_services (services : list AvatarService)
| call_populate
| call_save
| call_enabled_services
| call_configurable_services
| call_default_service
| call_for_user (user : User) (service_id : option string).

(** The registry a call leaves behind, whether it returns or raises. *)
Definition exec (c : Call) (r : Registry) : Registry :=
  match c with
  | call_register item => (register populate item r).2
  | call_unregister item => (unregister populate item r).2
  | call_enable_service sid sv => (enable_service populate sid sv r).2
  | call_disable_service sid sv => (disable_service populate sid sv r).2
  | call_set_default_service svc sv => (set_default_service populate svc sv r).2
  | call_set_enabled_services l => (set_enabled_services populate l r).2
  | call_populate => (populate r).2
  | call_save => (save r).2
  | call_enabled_services => (enabled_services populate r).2
  | call_configurable_services => (configurable_services populate r).2
  | call_default_service => (default_service populate r).2
  | call_for_user u sid => (for_user populate u sid r).2
  end.

(** The six mutating operations of the default-implies-enabled invariant. *)
Definition is_mutator (c : Call) : bool :=
  match c with
  | call_enable_service _ _ | call_disable_service _ _
  | call_set_default_service _ _ | call_set_enabled_services _
  | call_unregister _ | call_populate => true
  | _ => false
  end.

(** The registries a process can hold: a new registry, and whatever a
    sequence of public calls makes of it. *)
Inductive reachable : Registry → Prop :=
| reachable_init c : reachable (init c)
| reachable_exec c r : reachable r → reachable (exec c r).

(** [has_service] read off the registry: the id is in the index and the
    entry found under it is an item of the registry. *)
Definition registered (r : Registry) (service_id : string) : bool :=
  match registry r !! service_id with
  | Some item => bool_decide (registry r !! avatar_service_id item = Some item)
  | None => false
  end.

(** The registry after [save()]. *)
Definition saved (r : Registry) : Registry := (save r).2.

(** Every entry of the index sits under its own [avatar_service_id]. *)
Definition index_keyed (r : Registry) : Prop :=
  ∀ k item, registry r !! k = Some item → avatar_service_id item = k.

(** The default service, when there is one, is enabled. *)
Definition default_is_enabled (r : Registry) : Prop :=
  match _default_service_id r with
  | None => True
  | Some sid => sid ∈ _enabled_services r
  end.

(** The resolution order of [for_user] in the spec's words: the requested
    id if given, registered and enabled; else the user's preferred id if
    registered and enabled; else the registry default, which may be [None]. *)
Definition usable (r : Registry) (sid : option string) : option AvatarService :=
  match sid with
  | Some i =>
      if bool_decide (i ∈ _enabled_services r) then registry r !! i else None
  | None => None
  end.

Definition for_user_spec (r : Registry) (user : User) (service_id : option string)
    : option AvatarService :=
  match usable r service_id with
  | Some item => Some item
  | None =>
      match usable r (preferred_service_id user) with
      | Some item => Some item
      | None =>
          match _default_service_id r with
          | Some d => registry r !! d
          | None => None
          end
      end
  end.

(** The two reconciliation steps of [populate] as functions of the
    registry: the persisted enabled ids, then the persisted default. *)
Definition load_enabled (ids : list string) (r : Registry) : Registry :=
  foldl (λ r sid,
           if registered r sid then
             set_enabled ({[sid]} ∪ _enabled_services r) r
           else
             set_logged (logged r ++ [format_error UNKNOWN_SERVICE_ENABLED sid]) r)
        r ids.

Definition load_default (d : option string) (r : Registry) : Registry :=
  match d with
  | None => r
  | Some sid =>
      match registry r !! sid with
      | None => set_logged (logged r ++ [format_error UNKNOWN_SERVICE_DEFAULT sid]) r
      | Some item =>
          if negb (bool_decide (registry r !! avatar_service_id item = Some item)) then
            set_logged (logged r ++ [format_error UNKNOWN_SERVICE_DEFAULT sid]) r
          else if negb (registered r (avatar_service_id item)
                        && bool_decide (avatar_service_id item ∈ _enabled_services r)) then
            set_logged (logged r ++ [format_error DISABLED_SERVICE_DEFAULT sid]) r
          else saved (set_default (Some (avatar_service_id item)) r)
      end
  end.


(** What holds of every registry a process can hold. *)
Record invariant (r : Registry) : Prop := {
  inv_keyed : index_keyed r;
  inv_enabled : ∀ sid, sid ∈ _enabled_services r → is_Some (registry r !! sid);
  inv_default : default_is_enabled r;
  inv_fresh : populated r = false → r = init (siteconfig r);
}.

(** ** A concrete registry

    Services A (configurable) and B are registered next to the built-in
    one, A is enabled and made the default; the site configuration found
    at start-up names a service that no longer exists. *)
Definition stale_settings : Settings :=
  {| ENABLED_SERVICES_KEY := Some ["gravatar"; "retired"];
     DEFAULT_SERVICE_KEY := Some "retired" |}.

Definition stale_siteconfig : SiteConfiguration :=
  {| settings := stale_settings; stored := stale_settings |}.

Definition service_A : AvatarService :=
  {| avatar_service_id := "A"; is_configurable := true; ident := 1 |}.

Definition service_B : AvatarService :=
  {| avatar_service_id := "B"; is_configurable := false; ident := 2 |}.

(** A second object that carries the id of A. *)
Definition service_A_copy : AvatarService :=
  {| avatar_service_id := "A"; is_configurable := true; ident := 3 |}.

Definition service_Q : AvatarService :=
  {| avatar_service_id := "Q"; is_configurable := false; ident := 4 |}.

Definition registry_AB : Registry :=
  exec (call_set_default_service (Some service_A) true)
    (exec (call_enable_service "A" true)
       (exec (call_register service_B)
          (exec (call_register service_A) (init stale_siteconfig)))).

Definition user_preferring_A : User := {| preferred_service_id := Some "A" |}.


End Avatars.

(** ** djblets.db.fields.counter_field *)

Module Counter.

(** Query expressions ([QueryExpressionType]): a column reference [F(name)],
    a literal, and the combination that [F(name) + n] and [F(name) - n]
    build. *)
Inductive Connector : Type := ADD | SUB.

Inductive QueryExpression : Type :=
| F (name : string)
| Value (z : Z)
| CombinedExpression (lhs : QueryExpression) (connector : Connector)
                     (rhs : QueryExpression).

(** [e + n] and [e - n] on an expression. *)
Definition expr_add (e : QueryExpression) (n : Z) : QueryExpression :=
  CombinedExpression e ADD (Value n).

Definition expr_sub (e : QueryExpression) (n : Z) : QueryExpression :=
  CombinedExpression e SUB (Value n).

(** A Python value held in an attribute or returned by an initializer. *)
Inductive PyValue : Type :=
| PyNone
| PyInt (z : Z)
| PyExpr (e : QueryExpression).

(** [isinstance(value, QueryExpressionType)]. *)
Definition is_expression (v : PyValue) : bool :=
  match v with PyExpr _ => true | _ => false end.

Definition is_None (v : PyValue) : bool :=
  match v with PyNone => true | _ => false end.

(** A model instance in memory: its primary key and its field attributes
    (an attribute that is absent from the map holds [None]). *)
Record ModelInstance : Type := {
  pk : option Z;
  attrs : gmap string PyValue;
}.

Definition getattr (inst : ModelInstance) (name : string) : PyValue :=
  default PyNone (attrs inst !! name).

(** The truth value of [model_instance.pk]: [None] and [0] are false. *)
Definition pk_truthy (inst : ModelInstance) : bool :=
  match pk inst with
  | Some k => negb (k =? 0)%Z
  | None => false
  end.

(** A row of the model's table: column name to integer, a column that is
    absent being NULL. *)
Abbreviation Row := (gmap string Z).

(** The storage engine evaluates an expression against the row it
    updates; NULL absorbs arithmetic. *)
Fixpoint eval (row : Row) (e : QueryExpression) : option Z :=
  match e with
  | F name => row !! name
  | Value z => Some z
  | CombinedExpression a op b =>
      match eval row a, eval row b with
      | Some x, Some y =>
          Some (match op with ADD => x + y | SUB => x - y end)%Z
      | _, _ => None
      end
  end.

(** What the code sends to the storage engine and the calls it makes of
    the initializer, in the order they happen. *)
Inductive Event : Type :=
| UpdateQuery (filter_pk : option Z) (column : string) (value : QueryExpression)
| ValuesQuery (filter_pk : option Z) (columns : list string)
| SaveQuery (pk_val : option Z) (values : list (string * PyValue))
| InitializerCall (instance_id : nat).

(** What an initializer does while it runs, as far as this field can
    tell: it returns a value, it has a model instance loaded or
    constructed (the [post_init] signal is sent for that object), or it
    reads the counter attribute of an object. *)
Inductive Script : Type :=
| Return (value : PyValue)
| PostInit (target : nat) (next : Script)
| GetAttr (target : nat) (next : PyValue → Script).

(** The [initializer] argument: a query expression, or a function of the
    model instance (its identity and the object). *)
Inductive Initializer : Type :=
| InitExpression (e : QueryExpression)
| InitCallable (f : nat → ModelInstance → Script).

(** [six.callable(self._initializer)]. *)
Definition callable (i : option Initializer) : bool :=
  match i with Some (InitCallable _) => true | _ => false end.

(** The truth value of [self._initializer]. *)
Definition initializer_truthy (i : option Initializer) : bool :=
  match i with Some _ => true | None => false end.

Record CounterField : Type := {
  attname : string;
  _initializer : option Initializer;
}.

(** The objects in memory by [id()], the table of the model, the
    [_locks] dictionary of the field and the events so far. *)
Record World : Type := {
  objects : gmap nat ModelInstance;
  table : gmap Z Row;
  _locks : gmap nat nat;
  events : list Event;
}.

Inductive Exception : Type :=
| IndexError
| KeyError
| DatabaseError
| RecursionError
| ReferenceError.

#[global] Instance Exception_eq_dec : EqDecision Exception.
Proof. solve_decision. Defined.

Abbreviation Op := (M World Exception).

Definition set_objects (o : gmap nat ModelInstance) (w : World) : World :=
  {| objects := o; table := table w; _locks := _locks w; events := events w |}.

Definition set_table (t : gmap Z Row) (w : World) : World :=
  {| objects := objects w; table := t; _locks := _locks w; events := events w |}.

Definition set_locks (l : gmap nat nat) (w : World) : World :=
  {| objects := objects w; table := table w; _locks := l; events := events w |}.

Definition emit (e : Event) : Op unit :=
  modify (λ w, {| objects := objects w; table := table w; _locks := _locks w;
                  events := events w ++ [e] |}).

(** The object behind a reference.  An id that names no object is not a
    reference a Python program can hold; the model raises for it. *)
Definition deref (model_instance : nat) : Op ModelInstance :=
  let! o := gets objects in
  match o !! model_instance with
  | Some inst => ret inst
  | None => raise ReferenceError
  end.

(** [setattr(model_instance, name, value)]. *)
Definition setattr (model_instance : nat) (name : string) (value : PyValue) : Op unit :=
  let! inst := deref model_instance in
  modify (λ w, set_objects
    (<[model_instance := {| pk := pk inst; attrs := <[name := value]> (attrs inst) |}]>
       (objects w)) w).

(** The column of a row after an assignment: NULL removes the column. *)
Definition assign (column : string) (v : option Z) (row : Row) : Row :=
  match v with
  | Some z => <[column := z]> row
  | None => delete column row
  end.

(** The storage engine's [UPDATE table SET column = value WHERE pk = filter_pk]:
    one statement, the expression evaluated against the stored row. *)
Definition queryset_update (filter_pk : option Z) (column : string)
    (value : QueryExpression) : Op unit :=
  emit (UpdateQuery filter_pk column value) ;;;
  match filter_pk with
  | Some k =>
      modify (λ w, set_table
        (alter (λ row, assign column (eval row value) row) k (table w)) w)
  | None => ret tt
  end.

(** The value a stored column has in Python. *)
Definition from_db (v : option Z) : PyValue :=
  match v with Some z => PyInt z | None => PyNone end.

(** [_reload_model_instance]: [q.values(...)[0]] raises [IndexError]
    when the filter matches no row. *)
Definition _reload_model_instance (model_instance : nat) (attnames : list string)
    : Op unit :=
  let! inst := deref model_instance in
  emit (ValuesQuery (pk inst) attnames) ;;;
  let! t := gets table in
  match pk inst ≫= (λ k, t !! k) with
  | None => raise IndexError
  | Some row =>
      for_each attnames (λ name, setattr model_instance name (from_db (row !! name)))
  end.

(** A field of the model as [_do_update] sees it. *)
Record FieldRef : Type := {
  field_attname : string;
  is_CounterField : bool;
}.

(** The value the engine stores for a Python value. *)
Definition to_db (row : Row) (v : PyValue) : option Z :=
  match v with
  | PyNone => None
  | PyInt z => Some z
  | PyExpr e => eval row e
  end.

(** The model's own [_do_update], behind [super()]: an UPDATE of the given
    values on the row of [pk_val]; the result tells whether a row was
    there. *)
Definition base_do_update (pk_val : option Z) (values : list (FieldRef * PyValue))
    : Op bool :=
  emit (SaveQuery pk_val (prod_map field_attname id <$> values)) ;;;
  let! t := gets table in
  match pk_val ≫= (λ k, t !! k) with
  | None => ret false
  | Some row =>
      modify (set_table
        (<[default 0%Z pk_val :=
             foldr (λ value acc, assign (field_attname value.1) (to_db row value.2) acc)
                   row values]> t)) ;;;
      ret true
  end.

(** [_model_do_update]: counter fields are left out of the values unless
    the value is [None] or the field is named in [update_fields]. *)
Definition _model_do_update (pk_val : option Z) (values : list (FieldRef * PyValue))
    (update_fields : option (list string)) : Op bool :=
  let values :=
    filter (λ value,
              negb (is_CounterField value.1) = true
              ∨ is_None value.2 = true
              ∨ (update_fields ≠ None ∧ update_fields ≠ Some []
                 ∧ field_attname value.1 ∈ default [] update_fields))
           values in
  base_do_update pk_val values.

Section Field.

Variable self : CounterField.

(** The [post_init] signal as it reaches [self._post_init] from inside
    an initializer, one call level deeper. *)
Variable send_post_init : option nat → Op unit.

(** A queryset, which the code only ever builds as
    [cls.objects.filter(pk=model_instance.pk)]. *)
Definition increment (queryset : option Z) (increment_by : Z) : Op unit :=
  queryset_update queryset (attname self) (expr_add (F (attname self)) increment_by).

Definition decrement (queryset : option Z) (decrement_by : Z) : Op unit :=
  queryset_update queryset (attname self) (expr_sub (F (attname self)) decrement_by).

Definition _reload (model_instance : nat) : Op unit :=
  _reload_model_instance model_instance [attname self].

Definition _increment (model_instance : nat) (reload_object : bool)
    (increment_by : Z) : Op unit :=
  when (negb (increment_by =? 0)%Z)
    (let! inst := deref model_instance in
     increment (pk inst) increment_by ;;;
     when reload_object (_reload model_instance)).

Definition _decrement (model_instance : nat) (reload_object : bool)
    (decrement_by : Z) : Op unit :=
  when (negb (decrement_by =? 0)%Z)
    (let! inst := deref model_instance in
     decrement (pk inst) decrement_by ;;;
     when reload_object (_reload model_instance)).

(** [model_instance.save(update_fields=[...])]: the named fields go
    through [_do_update]; a save with [update_fields] that updates no row
    is a [DatabaseError]. *)
Definition save (model_instance : nat) (update_fields : list string) : Op unit :=
  let! inst := deref model_instance in
  let values :=
    (λ name, ({| field_attname := name;
                 is_CounterField := bool_decide (name = attname self) |},
              getattr inst name)) <$> update_fields in
  let! updated := _model_do_update (pk inst) values (Some update_fields) in
  when (negb updated) (raise DatabaseError).

(** The initializer running. *)
Fixpoint run (s : Script) : Op PyValue :=
  match s with
  | Return value => ret value
  | PostInit target next => send_post_init (Some target) ;;; run next
  | GetAttr target next =>
      let! inst := deref target in
      run (next (getattr inst (attname self)))
  end.

(** [self._initializer(model_instance)]. *)
Definition call_initializer (f : nat → ModelInstance → Script)
    (model_instance : nat) : Op PyValue :=
  emit (InitializerCall model_instance) ;;;
  let! inst := deref model_instance in
  run (f model_instance inst).

(** [del self._locks[key]]. *)
Definition del_lock (key : nat) : Op unit :=
  let! l := gets _locks in
  match l !! key with
  | Some _ => modify (set_locks (delete key l))
  | None => raise KeyError
  end.

Definition _reinit (model_instance : nat) : Op unit :=
  let! inst := deref model_instance in
  if negb (pk_truthy inst || initializer_truthy (_initializer self)
           || callable (_initializer self))
  then ret tt
  else
    let! value :=
      match _initializer self with
      | Some (InitExpression e) => ret (PyExpr e)
      | Some (InitCallable f) =>
          let model_instance_id := model_instance in
          modify (λ w, set_locks (<[model_instance_id := 1]> (_locks w)) w) ;;;
          let! value := call_initializer f model_instance in
          del_lock model_instance_id ;;;
          ret value
      | None => ret (PyInt 0)
      end in
    if is_None value then ret tt
    else
      let! inst := deref model_instance in
      let is_expr := is_expression value in
      let value := if is_expr && negb (pk_truthy inst) then PyInt 0 else value in
      match value with
      | PyExpr e =>
          (* [is_expr] still holds: the update and the reload *)
          queryset_update (pk inst) (attname self) e ;;;
          _reload_model_instance model_instance [attname self]
      | _ =>
          setattr model_instance (attname self) value ;;;
          let! inst := deref model_instance in
          when (pk_truthy inst) (save model_instance [attname self])
      end.

Definition _do_post_init (instance : nat) : Op unit :=
  let! inst := deref instance in
  let value := getattr inst (attname self) in
  when (is_None value) (_reinit instance).

Definition _post_init (instance : option nat) : Op unit :=
  match instance with
  | Some instance_id =>
      let! l := gets _locks in
      when (bool_decide (l !! instance_id = None)) (_do_post_init instance_id)
  | None => ret tt
  end.

End Field.

(** The [post_init] receiver of a field with the nesting of calls bounded
    by [depth], the interpreter's recursion limit. *)
Fixpoint post_init_at (depth : nat) (self : CounterField) (instance : option nat)
    : Op unit :=
  match depth with
  | O => raise RecursionError
  | S d => _post_init self (post_init_at d self) instance
  end.

(** [reinit_<field>] as a caller outside any initializer runs it. *)
Definition reinit (depth : nat) (self : CounterField) (model_instance : nat) : Op unit :=
  _reinit self (post_init_at depth self) model_instance.

(** How often the initializer was called for an object. *)
Definition is_call_for (instance_id : nat) (e : Event) : bool :=
  match e with
  | InitializerCall i => bool_decide (i = instance_id)
  | _ => false
  end.

Definition initializer_calls (instance_id : nat) (l : list Event) : nat :=
  length (filter (λ e, is_call_for instance_id e = true) l).

(** The value stored in a column of the row of a primary key. *)
Definition stored_value (w : World) (k : Z) (column : string) : option Z :=
  table w !! k ≫= λ row, row !! column.

(** The attribute of an object in memory. *)
Definition attribute (w : World) (instance_id : nat) (name : string) : option PyValue :=
  (λ inst, getattr inst name) <$> objects w !! instance_id.

(** The world in which [self._locks[instance_id] = 1] has just run. *)
Definition lock (instance_id : nat) (w : World) : World :=
  set_locks (<[instance_id := 1]> (_locks w)) w.

(** What a call leaves alone of an object [i]: the object, its lock and
    the number of initializer calls made for it. *)
Record frame (i : nat) (w w' : World) : Prop := {
  frame_object : objects w' !! i = objects w !! i;
  frame_lock : _locks w' !! i = _locks w !! i;
  frame_calls : initializer_calls i (events w') = initializer_calls i (events w);
}.

(** [m] leaves object [i] alone whenever it starts with [i] locked. *)
Definition keeps {A} (i : nat) (m : Op A) : Prop :=
  ∀ w o w', is_Some (_locks w !! i) → m w = (o, w') → frame i w w'.

(** What a step that works on object [j] leaves alone: the locks, every
    other object, and the number of initializer calls. *)
Record silent (j : nat) (w w' : World) : Prop := {
  silent_locks : _locks w' = _locks w;
  silent_objects : ∀ i, i ≠ j → objects w' !! i = objects w !! i;
  silent_calls : ∀ i, initializer_calls i (events w') = initializer_calls i (events w);
}.

Definition quiet {A} (j : nat) (m : Op A) : Prop :=
  ∀ w o w', m w = (o, w') → silent j w w'.


(** An initializer script that has no object but [i] loaded and reads no
    counter but that of [i], and the value it returns when that counter
    holds [own]. *)
Fixpoint self_contained (i : nat) (s : Script) : Prop :=
  match s with
  | Return _ => True
  | PostInit target next => target = i ∧ self_contained i next
  | GetAttr target next => target = i ∧ ∀ v, self_contained i (next v)
  end.

Fixpoint script_value (own : PyValue) (s : Script) : PyValue :=
  match s with
  | Return value => value
  | PostInit _ next => script_value own next
  | GetAttr _ next => script_value own (next own)
  end.


(** ** A concrete table

    One row with primary key 7 whose counter [n] holds 10, loaded twice
    (objects 1 and 2, two writers), and an object 3 that is not saved
    yet. *)
Definition counter_n : CounterField :=
  {| attname := "n"; _initializer := None |}.

Definition two_writers : World :=
  {| objects := {[ 1%nat := {| pk := Some 7%Z; attrs := {[ "n" := PyInt 10 ]} |};
                   2%nat := {| pk := Some 7%Z; attrs := {[ "n" := PyInt 10 ]} |};
                   3%nat := {| pk := None; attrs := ∅ |} ]};
     table := {[ 7%Z := {[ "n" := 10%Z ]} ]};
     _locks := ∅;
     events := [] |}.

(** A counter whose initializer is the expression [F("m") + 1]. *)
Definition counter_expr : CounterField :=
  {| attname := "n";
     _initializer := Some (InitExpression (expr_add (F "m") 1)) |}.

(** A counter whose initializer has its own instance loaded, reads the
    counter of that instance, has it loaded again and returns 5. *)
Definition counter_self : CounterField :=
  {| attname := "n";
     _initializer :=
       Some (InitCallable (λ i _,
         PostInit i (GetAttr i (λ _, PostInit i (Return (PyInt 5)))))) |}.

End Counter.

(** ** The batch updates of the counter field

    [increment_many] and [decrement_many] send one update of several
    columns, which the single-column events of [Counter] have no place
    for: the events here are those, and the update of many columns. *)

Module CounterMany.
Import Counter.

Inductive Event : Type :=
| Single (e : Counter.Event)
| UpdateManyQuery (filter_pk : option Z) (values : gmap string QueryExpression).

(** The objects in memory, the table of the model and the events. *)
Record World : Type := {
  objects : gmap nat ModelInstance;
  table : gmap Z Row;
  events : list Event;
}.

Abbreviation Op := (M World Counter.Exception).

(** A step of [Counter] run here: its events are appended as they are. *)
Definition lift {A} (m : Counter.Op A) : Op A :=
  λ w,
    let r := m {| Counter.objects := objects w; Counter.table := table w;
                  Counter._locks := ∅; Counter.events := [] |} in
    (r.1, {| objects := Counter.objects r.2; table := Counter.table r.2;
             events := events w ++ (Single <$> Counter.events r.2) |}).

(** The row after [SET column = value] for every entry of [values], each
    value evaluated against the row as it was. *)
Definition assign_many (values : gmap string QueryExpression) (row : Row) : Row :=
  merge (λ value old,
           match value with
           | Some e => eval row e
           | None => old
           end) values row.

(** [queryset.update] with the dictionary as its keyword arguments, on
    [objects.filter(pk=filter_pk)]: one statement. *)
Definition queryset_update_many (filter_pk : option Z)
    (values : gmap string QueryExpression) : Op unit :=
  modify (λ w, {| objects := objects w; table := table w;
                  events := events w ++ [UpdateManyQuery filter_pk values] |}) ;;;
  match filter_pk with
  | Some k =>
      modify (λ w, {| objects := objects w;
                      table := alter (assign_many values) k (table w);
                      events := events w |})
  | None => ret tt
  end.

(** [_set_values]: nothing is sent for an empty dictionary. *)
Definition _set_values (model_instance : nat)
    (values : gmap string QueryExpression) (reload_object : bool) : Op unit :=
  when (negb (bool_decide (size values = 0%nat)))
    (let! inst := lift (deref model_instance) in
     queryset_update_many (pk inst) values ;;;
     when reload_object
       (lift (_reload_model_instance model_instance (map_to_list values).*1))).

(** [_update_values]: the entries with a value other than 0 become
    [F(attname) + value * multiplier]. *)
Definition _update_values (model_instance : nat) (values : gmap string Z)
    (reload_object : bool) (multiplier : Z) : Op unit :=
  let update_values :=
    map_imap (λ attname value,
                if (value =? 0)%Z then None
                else Some (expr_add (F attname) (value * multiplier)))
             values in
  _set_values model_instance update_values reload_object.

Definition increment_many (model_instance : nat) (values : gmap string Z)
    (reload_object : bool) : Op unit :=
  _update_values model_instance values reload_object 1.

Definition decrement_many (model_instance : nat) (values : gmap string Z)
    (reload_object : bool) : Op unit :=
  _update_values model_instance values reload_object (-1).

(** The value stored in a column of the row of a primary key. *)
Definition stored_value (w : World) (k : Z) (column : string) : option Z :=
  table w !! k ≫= λ row, row !! column.

(** A row with two counters, loaded once. *)
Definition two_counters : World :=
  {| objects := {[ 1%nat := {| pk := Some 7%Z;
                               attrs := {[ "n" := PyInt 10; "m" := PyInt 3 ]} |} ]};
     table := {[ 7%Z := {[ "n" := 10%Z; "m" := 3%Z ]} ]};
     events := [] |}.

End CounterMany.

(** * Properties of the registry *)

Module AvatarsFacts.
Import Avatars.

Lemma populate_at_populated d r :
  populated r = true → populate_at (S d) r = (Ok tt, r).
Proof.
  intros H. simpl. unfold populate_body, bind, gets. by rewrite H.
Qed.

Lemma populate_populated r : populated r = true → populate r = (Ok tt, r).
Proof. apply populate_at_populated. Qed.

Section Populated.

Variable sp : Method unit.
Hypothesis sp_returns : ∀ r, populated r = true → sp r = (Ok tt, r).

Lemma get_populated r v :
  populated r = true →
  get sp "avatar_service_id" v r =
    (match registry r !! v with
     | Some item => Ok item
     | None => Raise (lookup_error_class (format_error NOT_REGISTERED v))
     end, r).
Proof.
  intros H. unfold get, bind, gets. simpl. rewrite (sp_returns r H).
  by destruct (registry r !! v).
Qed.

Lemma contains_populated r item :
  populated r = true →
  contains sp item r =
    (Ok (bool_decide (registry r !! avatar_service_id item = Some item)), r).
Proof. intros H. unfold contains, bind, gets. by rewrite (sp_returns r H). Qed.

Lemma has_service_populated r sid :
  populated r = true → has_service sp sid r = (Ok (registered r sid), r).
Proof.
  intros H. unfold has_service, get_avatar_service, try_except, bind at 1.
  rewrite (get_populated r sid H). unfold registered.
  destruct (registry r !! sid) as [item|]; simpl; [|done].
  by rewrite (contains_populated r item H).
Qed.

Lemma is_enabled_populated r sid :
  populated r = true →
  is_enabled sp sid r =
    (Ok (registered r sid && bool_decide (sid ∈ _enabled_services r)), r).
Proof.
  intros H. unfold is_enabled, bind at 1. rewrite (has_service_populated r sid H).
  by destruct (registered r sid).
Qed.

Lemma default_service_populated r :
  populated r = true →
  default_service sp r =
    (match _default_service_id r with
     | None => Ok None
     | Some d =>
         match registry r !! d with
         | Some item => Ok (Some item)
         | None => Raise (lookup_error_class (format_error NOT_REGISTERED d))
         end
     end, r).
Proof.
  intros H. unfold default_service, bind at 1. rewrite (sp_returns r H).
  unfold bind at 1, gets. destruct (_default_service_id r) as [d|]; [|done].
  unfold get_avatar_service, bind. rewrite (get_populated r d H).
  by destruct (registry r !! d).
Qed.

Lemma enable_service_populated r sid sv :
  populated r = true →
  enable_service sp sid sv r =
    if registered r sid then
      (Ok tt,
       let r' := set_enabled ({[sid]} ∪ _enabled_services r) r in
       if sv then saved r' else r')
    else
      (Raise (lookup_error_class (format_error UNKNOWN_SERVICE_ENABLED sid)), r).
Proof.
  intros H. unfold enable_service, bind at 1.
  rewrite (has_service_populated r sid H).
  destruct (registered r sid); [|done]. by destruct sv.
Qed.

Lemma set_default_service_None r sv :
  populated r = true →
  set_default_service sp None sv r =
    (Ok tt, let r' := set_default None r in if sv then saved r' else r').
Proof.
  intros H. unfold set_default_service, bind at 1. rewrite (sp_returns r H).
  by destruct sv.
Qed.

Lemma set_default_service_Some r item sv :
  populated r = true →
  set_default_service sp (Some item) sv r =
    if negb (bool_decide (registry r !! avatar_service_id item = Some item)) then
      (Raise (lookup_error_class
                (format_error UNKNOWN_SERVICE_DEFAULT (avatar_service_id item))), r)
    else if negb (registered r (avatar_service_id item)
                  && bool_decide (avatar_service_id item ∈ _enabled_services r)) then
      (Raise (DisabledServiceError
                (format_error DISABLED_SERVICE_DEFAULT (avatar_service_id item))), r)
    else
      (Ok tt,
       let r' := set_default (Some (avatar_service_id item)) r in
       if sv then saved r' else r').
Proof.
  intros H. unfold set_default_service, bind at 1. rewrite (sp_returns r H).
  unfold bind at 1, bind at 1. rewrite (contains_populated r item H).
  destruct (bool_decide (registry r !! avatar_service_id item = Some item));
    simpl; [|done].
  unfold bind at 1. rewrite (is_enabled_populated r _ H).
  destruct (registered r _ && _); simpl; [|done]. by destruct sv.
Qed.

Lemma disable_service_populated r sid sv :
  populated r = true →
  disable_service sp sid sv r =
    if registered r sid then
      let r1 := set_enabled (_enabled_services r ∖ {[sid]}) r in
      match _default_service_id r with
      | None => (Ok tt, if sv then saved r1 else r1)
      | Some d =>
          match registry r !! d with
          | None =>
              (Raise (lookup_error_class (format_error NOT_REGISTERED d)), r1)
          | Some item =>
              let r2 := if bool_decide (avatar_service_id item = sid)
                        then saved (set_default None r1) else r1 in
              (Ok tt, if sv then saved r2 else r2)
          end
      end
    else
      (Raise (lookup_error_class (format_error UNKNOWN_SERVICE_DISABLED sid)), r).
Proof.
  intros H. unfold disable_service, bind at 1.
  rewrite (has_service_populated r sid H).
  destruct (registered r sid); [|done]. simpl.
  unfold bind at 1. simpl. unfold bind at 1. simpl. unfold bind at 1.
  rewrite default_service_populated by done. simpl.
  destruct (_default_service_id r) as [d|]; [|by destruct sv].
  destruct (registry r !! d) as [item|]; [|done].
  destruct (bool_decide (avatar_service_id item = sid)); simpl.
  - unfold bind at 1. rewrite set_default_service_None by done.
    by destruct sv.
  - by destruct sv.
Qed.

Lemma unregister_unknown r item :
  populated r = true →
  registered r (avatar_service_id item) = false →
  unregister sp item r =
    (Raise (lookup_error_class
              (format_error UNKNOWN_SERVICE_DISABLED (avatar_service_id item))), r).
Proof.
  intros H Hr. unfold unregister, bind at 1.
  by rewrite (disable_service_populated r _ true H), Hr.
Qed.


End Populated.

Lemma registered_same_registry r r' sid :
  registry r' = registry r → registered r' sid = registered r sid.
Proof. unfold registered. by intros ->. Qed.

Lemma load_enabled_populated ids r : populated (load_enabled ids r) = populated r.
Proof.
  revert r. induction ids as [|sid ids IH]; intros r; [done|]. simpl.
  rewrite IH. by destruct (registered r sid).
Qed.

Lemma load_enabled_registry ids r : registry (load_enabled ids r) = registry r.
Proof.
  revert r. induction ids as [|sid ids IH]; intros r; [done|]. simpl.
  rewrite IH. by destruct (registered r sid).
Qed.

Lemma load_enabled_default ids r :
  _default_service_id (load_enabled ids r) = _default_service_id r.
Proof.
  revert r. induction ids as [|sid ids IH]; intros r; [done|]. simpl.
  rewrite IH. by destruct (registered r sid).
Qed.

Lemma load_enabled_siteconfig ids r : siteconfig (load_enabled ids r) = siteconfig r.
Proof.
  revert r. induction ids as [|sid ids IH]; intros r; [done|]. simpl.
  rewrite IH. by destruct (registered r sid).
Qed.

Lemma load_enabled_enabled ids r sid :
  sid ∈ _enabled_services (load_enabled ids r) ↔
  sid ∈ _enabled_services r ∨ (sid ∈ ids ∧ registered r sid = true).
Proof.
  revert r. induction ids as [|x ids IH]; intros r; simpl.
  - set_solver.
  - rewrite IH. destruct (registered r x) eqn:Hx; simpl.
    + rewrite (registered_same_registry r _ sid) by done. set_solver.
    + rewrite (registered_same_registry r _ sid) by done.
      split; [set_solver|]. intros [?|[Hin ?]]; [by left|].
      apply elem_of_cons in Hin as [->|]; [congruence|]. by right.
Qed.

Lemma load_enabled_logged ids r :
  logged (load_enabled ids r) =
    logged r ++ (format_error UNKNOWN_SERVICE_ENABLED <$>
                   filter (λ sid, registered r sid = false) ids).
Proof.
  revert r. induction ids as [|x ids IH]; intros r; simpl.
  - by rewrite app_nil_r.
  - rewrite IH. destruct (registered r x) eqn:Hx; simpl.
    + by rewrite filter_cons_False by congruence.
    + rewrite filter_cons_True by done. by rewrite fmap_cons, <- app_assoc.
Qed.

Section Reconcile.

Variable sp : Method unit.
Hypothesis sp_returns : ∀ r, populated r = true → sp r = (Ok tt, r).

Lemma load_enabled_loop ids r :
  populated r = true →
  for_each ids (λ sid,
      let! h := has_service sp sid in
      if h then enable_service sp sid false
      else logging_error (format_error UNKNOWN_SERVICE_ENABLED sid)) r =
    (Ok tt, load_enabled ids r).
Proof.
  revert r. induction ids as [|sid ids IH]; intros r H; [done|].
  simpl. unfold bind at 1, bind at 1.
  rewrite (has_service_populated sp sp_returns r sid H).
  destruct (registered r sid) eqn:Hr.
  - rewrite (enable_service_populated sp sp_returns r sid false H), Hr.
    by apply IH.
  - unfold logging_error, modify. by apply IH.
Qed.

Lemma load_default_step d r :
  populated r = true →
  match d with
  | Some sid =>
      try_except
        (let! item := get sp "avatar_service_id" sid in
         set_default_service sp (Some item) true)
        (λ e, is_ItemLookupError e || is_DisabledServiceError e)
        (λ e,
           if is_ItemLookupError e then
             logging_error (format_error UNKNOWN_SERVICE_DEFAULT sid)
           else
             logging_error (format_error DISABLED_SERVICE_DEFAULT sid))
  | None => ret tt
  end r = (Ok tt, load_default d r).
Proof.
  intros H. destruct d as [sid|]; [|done]. unfold try_except, bind at 1.
  rewrite (get_populated sp sp_returns r sid H). unfold load_default.
  destruct (registry r !! sid) as [item|]; [|done].
  rewrite (set_default_service_Some sp sp_returns r item true H).
  destruct (negb (bool_decide _)); [done|].
  by destruct (negb (registered r _ && _)).
Qed.

Lemma base_populate_init c :
  base_populate sp (init c) =
    (Ok tt, set_registry {["gravatar" := GravatarService]}
              (set_populated true (init c))).
Proof.
  unfold base_populate, bind at 1. simpl. unfold bind at 1. simpl.
  unfold bind at 1, register, bind at 1.
  by rewrite sp_returns.
Qed.

Lemma populate_body_init c :
  populate_body sp (init c) =
    (Ok tt,
     saved (load_default (DEFAULT_SERVICE_KEY (settings c))
              (load_enabled (default [] (ENABLED_SERVICES_KEY (settings c)))
                 (set_registry {["gravatar" := GravatarService]}
                    (set_populated true (init c)))))).
Proof.
  unfold populate_body, bind at 1. simpl. unfold bind at 1.
  rewrite base_populate_init.
  set (r1 := set_registry _ _).
  assert (populated r1 = true) as H1 by done.
  unfold bind at 1, gets, bind at 1.
  change (siteconfig r1) with c.
  assert (match ENABLED_SERVICES_KEY (settings c) with
          | Some ids =>
              for_each ids (λ sid,
                let! h := has_service sp sid in
                if h then enable_service sp sid false
                else logging_error (format_error UNKNOWN_SERVICE_ENABLED sid))
          | None => ret tt
          end r1 =
          (Ok tt, load_enabled (default [] (ENABLED_SERVICES_KEY (settings c))) r1))
    as ->.
  { destruct (ENABLED_SERVICES_KEY (settings c)); [|done].
    by apply load_enabled_loop. }
  unfold bind at 1.
  by rewrite load_default_step by by rewrite load_enabled_populated.
Qed.

End Reconcile.

(** [populate] on a new registry. *)
Lemma populate_init c :
  populate (init c) =
    (Ok tt,
     saved (load_default (DEFAULT_SERVICE_KEY (settings c))
              (load_enabled (default [] (ENABLED_SERVICES_KEY (settings c)))
                 (set_registry {["gravatar" := GravatarService]}
                    (set_populated true (init c)))))).
Proof.
  unfold populate. change (populate_at 2) with (populate_body (populate_at 1)).
  apply populate_body_init. apply populate_at_populated.
Qed.

(** ** The invariant *)

Lemma invariant_init c : invariant (init c).
Proof.
  split; simpl; done.
Qed.

Lemma invariant_populated r :
  populated r = true → index_keyed r →
  (∀ sid, sid ∈ _enabled_services r → is_Some (registry r !! sid)) →
  default_is_enabled r → invariant r.
Proof. intros Hp ???. split; try done. congruence. Qed.

Lemma registered_keyed r sid :
  index_keyed r → registered r sid = bool_decide (is_Some (registry r !! sid)).
Proof.
  intros Hk. unfold registered.
  destruct (registry r !! sid) as [item|] eqn:Hl.
  - rewrite (Hk _ _ Hl), Hl. rewrite !bool_decide_eq_true_2; eauto.
  - rewrite bool_decide_eq_false_2; [done|]. by intros [??].
Qed.

Lemma registered_true r sid :
  index_keyed r → is_Some (registry r !! sid) → registered r sid = true.
Proof. intros Hk Hs. rewrite registered_keyed by done. by apply bool_decide_eq_true_2. Qed.

Lemma registered_lookup r sid :
  registered r sid = true → is_Some (registry r !! sid).
Proof. unfold registered. destruct (registry r !! sid); [eauto|done]. Qed.

Lemma invariant_saved r : invariant r → invariant (saved r).
Proof.
  intros [Hk He Hd Hf]. split; try done. simpl. intros Hp.
  rewrite (Hf Hp). done.
Qed.

Lemma invariant_logged r l : populated r = true → invariant r → invariant (set_logged l r).
Proof. intros Hp [Hk He Hd Hf]. by apply invariant_populated. Qed.

Lemma invariant_enable r sid :
  populated r = true → invariant r → registered r sid = true →
  invariant (set_enabled ({[sid]} ∪ _enabled_services r) r).
Proof.
  intros Hp [Hk He Hd Hf] Hr. apply invariant_populated; try done; simpl.
  - intros x [->%elem_of_singleton|?]%elem_of_union; [|by apply He].
    by apply registered_lookup.
  - unfold default_is_enabled in *. simpl.
    destruct (_default_service_id r); [|done]. set_solver.
Qed.

Lemma invariant_clear_default r :
  populated r = true → index_keyed r →
  (∀ sid, sid ∈ _enabled_services r → is_Some (registry r !! sid)) →
  invariant (set_default None r).
Proof. intros Hp Hk He. by apply invariant_populated. Qed.

Lemma invariant_set_default r sid :
  populated r = true → invariant r → sid ∈ _enabled_services r →
  invariant (set_default (Some sid) r).
Proof. intros Hp [Hk He Hd Hf] Hin. by apply invariant_populated. Qed.

Lemma invariant_disable r sid :
  populated r = true → invariant r → _default_service_id r ≠ Some sid →
  invariant (set_enabled (_enabled_services r ∖ {[sid]}) r).
Proof.
  intros Hp [Hk He Hd Hf] Hne. apply invariant_populated; try done; simpl.
  - intros x Hx. apply He. set_solver.
  - unfold default_is_enabled in *. simpl.
    destruct (_default_service_id r) as [d|]; [|done].
    apply elem_of_difference. split; [done|].
    intros ->%elem_of_singleton. done.
Qed.

Lemma invariant_register r item :
  populated r = true → invariant r →
  registry r !! avatar_service_id item = None →
  invariant (set_registry (<[avatar_service_id item := item]> (registry r)) r).
Proof.
  intros Hp [Hk He Hd Hf] Hn. apply invariant_populated; try done; simpl.
  - intros k x. simpl. rewrite lookup_insert. case_decide; [naive_solver|]. apply Hk.
  - intros sid Hs. rewrite lookup_insert. case_decide; [eauto|]. by apply He.
Qed.

Lemma invariant_unregister r sid :
  populated r = true → invariant r → sid ∉ _enabled_services r →
  invariant (set_registry (delete sid (registry r)) r).
Proof.
  intros Hp [Hk He Hd Hf] Hn. apply invariant_populated; try done; simpl.
  - intros k x. simpl. rewrite lookup_delete. case_decide; [done|]. apply Hk.
  - intros x Hx. rewrite lookup_delete. case_decide; [congruence|]. by apply He.
Qed.

(** Disabling on a populated registry that satisfies the invariant. *)
Lemma disable_service_invariant r sid sv :
  populated r = true → invariant r →
  ∃ o r', disable_service populate sid sv r = (o, r') ∧
    populated r' = true ∧ invariant r' ∧ registry r' = registry r ∧
    (registered r sid = true →
       o = Ok tt ∧ (sid ∉ _enabled_services r') ∧
       (_default_service_id r = Some sid → _default_service_id r' = None)) ∧
    (registered r sid = false → r' = r).
Proof.
  intros Hp Hi.
  rewrite (disable_service_populated populate populate_populated r sid sv Hp).
  destruct (registered r sid) eqn:Hr; [|by eexists _, _; split_and!].
  pose proof Hi as [Hk He Hd Hf].
  destruct (_default_service_id r) as [d|] eqn:Hdef.
  - unfold default_is_enabled in Hd. rewrite Hdef in Hd.
    destruct (He d Hd) as [item Hitem]. rewrite Hitem.
    rewrite (Hk _ _ Hitem).
    case_bool_decide as Hsid; simpl.
    + subst d. eexists _, _. split; [done|].
      assert (invariant (saved (set_default None
                (set_enabled (_enabled_services r ∖ {[sid]}) r)))) as Hi'.
      { apply invariant_saved, invariant_clear_default; [done..|].
        simpl. intros x Hx. apply He. set_solver. }
      destruct sv; split_and!; try done; try (by apply invariant_saved);
        intros _; split_and!; try done; try congruence; simpl; set_solver.
    + eexists _, _. split; [done|].
      assert (invariant (set_enabled (_enabled_services r ∖ {[sid]}) r)) as Hi'.
      { apply invariant_disable; [done..|]. rewrite Hdef. congruence. }
      destruct sv; split_and!; try done; try (by apply invariant_saved);
        intros _; split_and!; try done; try congruence; simpl; set_solver.
  - eexists _, _. split; [done|].
    assert (invariant (set_enabled (_enabled_services r ∖ {[sid]}) r)) as Hi'.
    { apply invariant_disable; [done..|]. rewrite Hdef. congruence. }
      destruct sv; split_and!; try done; try (by apply invariant_saved);
        intros _; split_and!; try done; try congruence; simpl; set_solver.
Qed.

Lemma enable_service_invariant r sid sv :
  populated r = true → invariant r →
  ∃ o r', enable_service populate sid sv r = (o, r') ∧
    populated r' = true ∧ invariant r' ∧ registry r' = registry r ∧
    (registered r sid = true → o = Ok tt).
Proof.
  intros Hp Hi.
  rewrite (enable_service_populated populate populate_populated r sid sv Hp).
  destruct (registered r sid) eqn:Hr; [|by eexists _, _; split_and!].
  eexists _, _. split; [done|].
  pose proof (invariant_enable r sid Hp Hi Hr).
  destruct sv; split_and!; try done. by apply invariant_saved.
Qed.

Lemma set_default_service_invariant r svc sv :
  populated r = true → invariant r →
  ∃ o r', set_default_service populate svc sv r = (o, r') ∧
    populated r' = true ∧ invariant r' ∧ registry r' = registry r.
Proof.
  intros Hp Hi. pose proof Hi as [Hk He Hd Hf]. destruct svc as [item|].
  - rewrite (set_default_service_Some populate populate_populated r item sv Hp).
    destruct (negb (bool_decide _)); [by eexists _, _; split_and!|].
    destruct (registered r _ && bool_decide _) eqn:Hen; simpl;
      [|by eexists _, _; split_and!].
    apply andb_true_iff in Hen as [_ Hen%bool_decide_eq_true].
    pose proof (invariant_set_default r _ Hp Hi Hen).
    eexists _, _. split; [done|].
    destruct sv; split_and!; try done. by apply invariant_saved.
  - rewrite (set_default_service_None populate populate_populated r sv Hp).
    pose proof (invariant_clear_default r Hp Hk He).
    eexists _, _. split; [done|].
    destruct sv; split_and!; try done. by apply invariant_saved.
Qed.

Lemma default_service_invariant r :
  populated r = true → invariant r →
  default_service populate r =
    (Ok (_default_service_id r ≫= λ d, registry r !! d), r).
Proof.
  intros Hp [Hk He Hd Hf].
  rewrite (default_service_populated populate populate_populated r Hp).
  unfold default_is_enabled in Hd.
  destruct (_default_service_id r) as [d|]; [|done]. simpl.
  by destruct (He d Hd) as [item ->].
Qed.

(** A loop whose body returns and keeps [Q] returns and keeps [Q]. *)
Lemma for_each_returns {A} (Q : Registry → Prop) (l : list A)
    (body : A → Method unit) r :
  Q r →
  (∀ x r, x ∈ l → Q r → ∃ r', body x r = (Ok tt, r') ∧ Q r') →
  ∃ r', for_each l body r = (Ok tt, r') ∧ Q r'.
Proof.
  revert r. induction l as [|x l IH]; intros r HQ Hbody; [by eexists|].
  simpl. unfold bind.
  destruct (Hbody x r) as (r1 & -> & HQ1); [by left|done|].
  apply IH; [done|]. intros y r2 Hy. apply Hbody. by right.
Qed.

(** The validation loop of the [enabled_services] setter. *)
Lemma validate_loop (l : list AvatarService) r :
  populated r = true →
  for_each l (λ service,
      let! h := has_service populate (avatar_service_id service) in
      when (negb h)
        (raise (lookup_error_class
                  (format_error UNKNOWN_SERVICE_ENABLED (avatar_service_id service)))))
    r =
    (match find (λ service, negb (registered r (avatar_service_id service))) l with
     | Some service =>
         Raise (lookup_error_class
                  (format_error UNKNOWN_SERVICE_ENABLED (avatar_service_id service)))
     | None => Ok tt
     end, r).
Proof.
  intros Hp. induction l as [|x l IH]; [done|].
  simpl. unfold bind at 1, bind at 1.
  rewrite (has_service_populated populate populate_populated r _ Hp).
  destruct (registered r (avatar_service_id x)); simpl; [|done]. apply IH.
Qed.

Lemma set_enabled_services_invariant r l :
  populated r = true → invariant r →
  ∃ o r', set_enabled_services populate l r = (o, r') ∧
    populated r' = true ∧ invariant r' ∧ registry r' = registry r ∧
    (∀ service,
       find (λ service, negb (registered r (avatar_service_id service)))
            (remove_dups l) = Some service →
       o = Raise (lookup_error_class
                    (format_error UNKNOWN_SERVICE_ENABLED (avatar_service_id service)))
       ∧ r' = r).
Proof.
  intros Hp Hi. unfold set_enabled_services, bind at 1.
  rewrite (populate_populated r Hp). unfold bind at 1.
  rewrite (validate_loop _ r Hp).
  destruct (find _ (remove_dups l)) as [bad|] eqn:Hfind.
  { eexists _, _. split_and!; try done. by intros ? [= <-]. }
  assert (∀ x, x ∈ remove_dups l → registered r (avatar_service_id x) = true) as Hall.
  { intros x Hx%list_elem_of_In. apply (find_none _ _ Hfind) in Hx.
    by apply negb_false_iff in Hx. }
  unfold bind at 1, gets. unfold bind at 1.
  set (Q := λ r' : Registry,
         populated r' = true ∧ invariant r' ∧ registry r' = registry r).
  set (new_ids := list_to_set (avatar_service_id <$> remove_dups l) : gset string).
  destruct (for_each_returns Q
              (elements (_enabled_services r ∖ new_ids))
              (λ sid, disable_service populate sid false) r)
    as (r1 & -> & HQ1); [done| |].
  { intros sid r0 Hsid (Hp0 & Hi0 & Hreg0).
    destruct (disable_service_invariant r0 sid false Hp0 Hi0)
      as (o & r' & -> & Hp' & Hi' & Hreg' & Hok & _).
    destruct Hok as (-> & _).
    - apply registered_true; [by destruct Hi0|]. rewrite Hreg0.
      apply Hi. apply elem_of_elements in Hsid. set_solver.
    - eexists. split; [done|]. split_and!; try done. congruence. }
  unfold bind at 1.
  destruct (for_each_returns Q
              (elements (new_ids ∖ _enabled_services r))
              (λ sid, enable_service populate sid false) r1)
    as (r2 & -> & HQ2); [done| |].
  { intros sid r0 Hsid (Hp0 & Hi0 & Hreg0).
    destruct (enable_service_invariant r0 sid false Hp0 Hi0)
      as (o & r' & -> & Hp' & Hi' & Hreg' & Hok).
    rewrite Hok.
    - eexists. split; [done|]. split_and!; try done. congruence.
    - rewrite (registered_same_registry r) by done.
      apply elem_of_elements, elem_of_difference in Hsid as [Hsid _].
      apply elem_of_list_to_set, list_elem_of_fmap in Hsid as (x & -> & Hx).
      by apply Hall. }
  destruct HQ2 as (Hp2 & Hi2 & Hreg2).
  unfold bind at 1, bind at 1.
  rewrite (default_service_invariant r2 Hp2 Hi2).
  destruct (_default_service_id r2 ≫= _) as [item|].
  - unfold bind at 1.
    rewrite (is_enabled_populated populate populate_populated r2 _ Hp2).
    destruct (registered r2 _ && _); simpl.
    + eexists _, _. split; [done|]. split_and!; try done. by apply invariant_saved.
    + rewrite (set_default_service_None populate populate_populated r2 true Hp2).
      eexists _, _. split; [done|]. split_and!; try done.
      do 2 apply invariant_saved. destruct Hi2. by apply invariant_clear_default.
  - eexists _, _. split; [done|]. split_and!; try done. by apply invariant_saved.
Qed.

Lemma unregister_invariant r item :
  populated r = true → invariant r →
  ∃ o r', unregister populate item r = (o, r') ∧
    populated r' = true ∧ invariant r'.
Proof.
  intros Hp Hi.
  destruct (registered r (avatar_service_id item)) eqn:Hr.
  - unfold unregister, bind at 1.
    destruct (disable_service_invariant r (avatar_service_id item) true Hp Hi)
      as (o & r1 & -> & Hp1 & Hi1 & Hreg1 & Hok & Hno).
    destruct Hok as (-> & Hnot & _); [done|].
    unfold base_unregister, bind at 1. rewrite (populate_populated r1 Hp1).
    unfold bind at 1, gets. case_bool_decide.
    + eexists _, _. split; [done|]. split; [done|].
      by apply invariant_unregister.
    + by eexists _, _.
  - rewrite (unregister_unknown populate populate_populated r item Hp Hr).
    by eexists _, _.
Qed.

Lemma register_invariant r item :
  populated r = true → invariant r →
  ∃ o r', register populate item r = (o, r') ∧
    populated r' = true ∧ invariant r'.
Proof.
  intros Hp Hi. unfold register, bind at 1. rewrite (populate_populated r Hp).
  unfold bind at 1, gets. case_bool_decide; [by eexists _, _|].
  destruct (registry r !! avatar_service_id item) eqn:Hl; [by eexists _, _|].
  eexists _, _. split; [done|]. split; [done|]. by apply invariant_register.
Qed.

Lemma collect_populated (l : list string) r :
  populated r = true →
  (collect l (get_avatar_service populate) r).2 = r.
Proof.
  intros Hp. induction l as [|sid l IH]; [done|]. simpl. unfold bind at 1.
  unfold get_avatar_service at 1.
  rewrite (get_populated populate populate_populated r sid Hp).
  destruct (registry r !! sid); [|done]. unfold bind.
  destruct (collect l _ r) as [[?|?] ?]; simpl in *; done.
Qed.

Lemma enabled_services_populated r :
  populated r = true → (enabled_services populate r).2 = r.
Proof.
  intros Hp. unfold enabled_services, bind at 1. rewrite (populate_populated r Hp).
  unfold bind at 1, gets. by apply collect_populated.
Qed.

Lemma configurable_services_populated r :
  populated r = true → (configurable_services populate r).2 = r.
Proof.
  intros Hp. unfold configurable_services, bind at 1.
  rewrite (populate_populated r Hp). unfold bind.
  pose proof (enabled_services_populated r Hp) as H.
  destruct (enabled_services populate r) as [[?|?] ?]; simpl in *; done.
Qed.

(** One round of the loop of [for_user]. *)
Lemma for_user_round r sid (k : Method (option AvatarService)) :
  populated r = true → invariant r →
  (let! h := has_service populate sid in
   if h then
     let! en := is_enabled populate sid in
     if en then
       let! item := get_avatar_service populate sid in ret (Some item)
     else k
   else k) r =
  match usable r (Some sid) with
  | Some item => (Ok (Some item), r)
  | None => k r
  end.
Proof.
  intros Hp [Hk He Hd Hf]. unfold bind at 1.
  rewrite (has_service_populated populate populate_populated r sid Hp).
  unfold usable. case_bool_decide as Hen.
  - destruct (He sid Hen) as [item Hitem].
    rewrite (registered_true r sid Hk) by eauto. unfold bind at 1.
    rewrite (is_enabled_populated populate populate_populated r sid Hp).
    rewrite (registered_true r sid Hk) by eauto.
    rewrite bool_decide_eq_true_2 by done. simpl.
    unfold bind, get_avatar_service.
    rewrite (get_populated populate populate_populated r sid Hp).
    by rewrite Hitem.
  - destruct (registered r sid); [|done]. unfold bind at 1.
    rewrite (is_enabled_populated populate populate_populated r sid Hp).
    by rewrite bool_decide_eq_false_2, andb_false_r by done.
Qed.

Lemma for_user_populated r user sid :
  populated r = true → invariant r →
  for_user populate user sid r = (Ok (for_user_spec r user sid), r).
Proof.
  intros Hp Hi. unfold for_user, for_user_spec, settings_avatar_service_id,
    settings_manager_class. simpl.
  assert (default_service populate r =
          (Ok match _default_service_id r with
              | Some d => registry r !! d
              | None => None
              end, r)) as Hdef.
  { rewrite (default_service_invariant r Hp Hi).
    by destruct (_default_service_id r). }
  destruct sid as [sid|], (preferred_service_id user) as [pref|];
    rewrite ?(for_user_round r _ _ Hp Hi);
    repeat (match goal with |- context [usable r (Some ?x)] =>
                            destruct (usable r (Some x)) end;
            rewrite ?(for_user_round r _ _ Hp Hi));
    simpl; try done.
Qed.

Lemma load_enabled_invariant ids r :
  populated r = true → invariant r → invariant (load_enabled ids r).
Proof.
  revert r. induction ids as [|sid ids IH]; intros r Hp Hi; [done|]. simpl.
  destruct (registered r sid) eqn:Hr; apply IH; try done.
  - by apply invariant_enable.
  - by apply invariant_logged.
Qed.

Lemma load_default_populated d r : populated (load_default d r) = populated r.
Proof.
  unfold load_default. destruct d as [sid|]; [|done].
  destruct (registry r !! sid); [|done].
  destruct (negb (bool_decide _)); [done|]. by destruct (negb (_ && _)).
Qed.

Lemma load_default_invariant d r :
  populated r = true → invariant r → invariant (load_default d r).
Proof.
  intros Hp Hi. unfold load_default. destruct d as [sid|]; [|done].
  destruct (registry r !! sid) as [item|]; [|by apply invariant_logged].
  destruct (negb (bool_decide _)); [by apply invariant_logged|].
  destruct (registered r _ && bool_decide _) eqn:Hen; simpl;
    [|by apply invariant_logged].
  apply andb_true_iff in Hen as [_ Hen%bool_decide_eq_true].
  by apply invariant_saved, invariant_set_default.
Qed.

Lemma populate_init_invariant c :
  ∃ r1, populate (init c) = (Ok tt, r1) ∧ populated r1 = true ∧ invariant r1.
Proof.
  eexists. split; [apply populate_init|].
  set (r0 := set_registry _ _).
  assert (populated r0 = true) as Hp0 by done.
  assert (invariant r0) as Hi0.
  { apply invariant_populated; try done.
    intros k item. simpl. by intros [<- <-]%lookup_singleton_Some. }
  split.
  - change (populated (saved ?x)) with (populated x).
    by rewrite load_default_populated, load_enabled_populated.
  - apply invariant_saved, load_default_invariant.
    + by rewrite load_enabled_populated.
    + by apply load_enabled_invariant.
Qed.

(** A call on a registry that is not populated yet runs as on the registry
    [populate] makes of it. *)
Section Fresh.

Variables r r1 : Registry.
Hypothesis populate_r : populate r = (Ok tt, r1).
Hypothesis populated_r1 : populated r1 = true.

Lemma populate_first {A} (k : Method A) :
  (populate ;;; k) r = (populate ;;; k) r1.
Proof. unfold bind. by rewrite populate_r, (populate_populated r1). Qed.

Lemma bind_fresh {A B} (m : Method A) (k : A → Method B) :
  m r = m r1 → bind m k r = bind m k r1.
Proof. unfold bind. by intros ->. Qed.

Lemma try_except_fresh {A} (m : Method A) caught handler :
  m r = m r1 → try_except m caught handler r = try_except m caught handler r1.
Proof. unfold try_except. by intros ->. Qed.

Lemma get_fresh a v : get populate a v r = get populate a v r1.
Proof. apply populate_first. Qed.

Lemma has_service_fresh sid : has_service populate sid r = has_service populate sid r1.
Proof. apply try_except_fresh, bind_fresh, get_fresh. Qed.

Lemma is_enabled_fresh sid : is_enabled populate sid r = is_enabled populate sid r1.
Proof. apply bind_fresh, has_service_fresh. Qed.

Lemma enable_service_fresh sid sv :
  enable_service populate sid sv r = enable_service populate sid sv r1.
Proof. apply bind_fresh, has_service_fresh. Qed.

Lemma disable_service_fresh sid sv :
  disable_service populate sid sv r = disable_service populate sid sv r1.
Proof. apply bind_fresh, has_service_fresh. Qed.

Lemma unregister_fresh item :
  unregister populate item r = unregister populate item r1.
Proof. apply bind_fresh, disable_service_fresh. Qed.

Lemma default_service_fresh : default_service populate r = default_service populate r1.
Proof. apply populate_first. Qed.

Lemma for_user_fresh user sid :
  for_user populate user sid r = for_user populate user sid r1.
Proof.
  unfold for_user. generalize (settings_avatar_service_id (settings_manager_class user)).
  intros pref. destruct sid as [sid|], pref as [pref|]; simpl;
    try apply default_service_fresh; apply bind_fresh, has_service_fresh.
Qed.

Lemma exec_fresh c : c ≠ call_save → exec c r = exec c r1.
Proof.
  intros Hc. destruct c; simpl; try done.
  - unfold register. by rewrite populate_first.
  - by rewrite unregister_fresh.
  - by rewrite enable_service_fresh.
  - by rewrite disable_service_fresh.
  - unfold set_default_service. by rewrite populate_first.
  - unfold set_enabled_services. by rewrite populate_first.
  - by rewrite populate_r, (populate_populated r1).
  - unfold enabled_services. by rewrite populate_first.
  - unfold configurable_services. by rewrite populate_first.
  - by rewrite default_service_fresh.
  - by rewrite for_user_fresh.
Qed.

End Fresh.

Lemma exec_populated c r :
  populated r = true → invariant r →
  populated (exec c r) = true ∧ invariant (exec c r).
Proof.
  intros Hp Hi. destruct c; simpl.
  - by destruct (register_invariant r item Hp Hi) as (? & ? & -> & ? & ?).
  - by destruct (unregister_invariant r item Hp Hi) as (? & ? & -> & ? & ?).
  - by destruct (enable_service_invariant r service_id save_ Hp Hi)
      as (? & ? & -> & ? & ? & _).
  - by destruct (disable_service_invariant r service_id save_ Hp Hi)
      as (? & ? & -> & ? & ? & _).
  - by destruct (set_default_service_invariant r service save_ Hp Hi)
      as (? & ? & -> & ? & ? & _).
  - by destruct (set_enabled_services_invariant r services Hp Hi)
      as (? & ? & -> & ? & ? & _).
  - by rewrite (populate_populated r Hp).
  - split; [done|]. by apply invariant_saved.
  - by rewrite (enabled_services_populated r Hp).
  - by rewrite (configurable_services_populated r Hp).
  - by rewrite (default_service_invariant r Hp Hi).
  - by rewrite (for_user_populated r user service_id Hp Hi).
Qed.

Lemma exec_invariant c r : invariant r → invariant (exec c r).
Proof.
  intros Hi. destruct (populated r) eqn:Hp; [by apply exec_populated|].
  assert (c = call_save ∨ c ≠ call_save) as [->|Hc]
    by (destruct c; (by left) || (by right)).
  { by apply invariant_saved. }
  pose proof (inv_fresh r Hi Hp) as Hr.
  destruct (populate_init_invariant (siteconfig r)) as (r1 & Hpop & Hp1 & Hi1).
  rewrite <- Hr in Hpop.
  rewrite (exec_fresh r r1 Hpop Hp1 c Hc). by apply exec_populated.
Qed.

Lemma reachable_invariant r : reachable r → invariant r.
Proof.
  induction 1 as [c|c r _ IH]; [apply invariant_init|by apply exec_invariant].
Qed.

(** [populate] returns on every registry a process can hold. *)
Lemma populate_returns r :
  invariant r → ∃ r1, populate r = (Ok tt, r1) ∧ populated r1 = true ∧ invariant r1.
Proof.
  intros Hi. destruct (populated r) eqn:Hp.
  - exists r. by rewrite (populate_populated r Hp).
  - rewrite (inv_fresh r Hi Hp). apply populate_init_invariant.
Qed.

Lemma reachable_registry_AB : reachable registry_AB.
Proof. unfold registry_AB. repeat apply reachable_exec. apply reachable_init. Qed.

Lemma invariant_lookup r sid :
  invariant r → registered r sid = false → registry r !! sid = None.
Proof.
  intros [Hk _ _ _]. rewrite (registered_keyed r sid Hk).
  intros Hn%bool_decide_eq_false. destruct (registry r !! sid); [|done].
  destruct Hn. eauto.
Qed.

Lemma populate_idle r : populated r = true → exec call_populate r = r.
Proof. intros Hp. simpl. by rewrite (populate_populated r Hp). Qed.

(** A deeper limit on the nesting of [populate] changes nothing. *)
Lemma populate_depth d r : invariant r → populate_at (S (S d)) r = populate r.
Proof.
  intros Hi. destruct (populated r) eqn:Hp.
  - by rewrite populate_at_populated, populate_populated.
  - rewrite (inv_fresh r Hi Hp), populate_init.
    change (populate_at (S (S d))) with (populate_body (populate_at (S d))).
    apply populate_body_init. apply populate_at_populated.
Qed.


(** ** The claims about the registry *)

(** C1. Default implies enabled: after any of the mutating operations
    (enable_service, disable_service, set_default_service, the
    enabled_services setter, unregister, populate) on a registry a process
    can hold, whether the call returns or raises, the default service id is
    [None] or a member of the enabled ids; and disabling the service that is
    the default returns with the default cleared by that same call. *)
Theorem default_implies_enabled r c :
  reachable r → is_mutator c = true →
  default_is_enabled (exec c r) ∧
  (∀ sid sv,
     c = call_disable_service sid sv → _default_service_id r = Some sid →
     disable_service populate sid sv r = (Ok tt, exec c r) ∧
     _default_service_id (exec c r) = None ∧
     sid ∉ _enabled_services (exec c r)).
Proof.
  intros Hr%reachable_invariant _. split.
  { by apply exec_invariant. }
  intros sid sv -> Hdef. simpl.
  assert (populated r = true) as Hp.
  { destruct (populated r) eqn:Hp; [done|].
    rewrite (inv_fresh r Hr Hp) in Hdef. done. }
  destruct (disable_service_invariant r sid sv Hp Hr)
    as (o & r' & -> & _ & _ & _ & Hok & _). simpl.
  destruct Hok as (-> & ? & ?); [|by auto].
  apply registered_true; [by destruct Hr|]. apply Hr.
  pose proof (inv_default r Hr) as Hd. unfold default_is_enabled in Hd.
  by rewrite Hdef in Hd.
Qed.

Lemma default_implies_enabled_witness :
  reachable registry_AB ∧
  is_mutator (call_disable_service "A" false) = true ∧
  default_is_enabled (exec (call_disable_service "A" false) registry_AB) ∧
  (∀ sid sv,
     call_disable_service "A" false = call_disable_service sid sv →
     _default_service_id registry_AB = Some sid →
     disable_service populate sid sv registry_AB =
       (Ok tt, exec (call_disable_service "A" false) registry_AB) ∧
     _default_service_id (exec (call_disable_service "A" false) registry_AB) = None ∧
     sid ∉ _enabled_services (exec (call_disable_service "A" false) registry_AB)).
Proof.
  split; [apply reachable_registry_AB|]. split; [reflexivity|].
  apply (default_implies_enabled registry_AB (call_disable_service "A" false)).
  - apply reachable_registry_AB.
  - reflexivity.
Defined.

(** C3. The enabled_services setter fails atomically: when an element of
    the collection is not registered, the setter raises the lookup error
    for an unregistered element and the registry, with its enabled ids, its
    default and the site configuration, is the one population left; a
    registry that was populated already is left exactly as it was. *)
Theorem setter_fails_atomically r services bad :
  reachable r →
  bad ∈ services →
  registry (exec call_populate r) !! avatar_service_id bad = None →
  ∃ culprit,
    culprit ∈ services ∧
    registry (exec call_populate r) !! avatar_service_id culprit = None ∧
    set_enabled_services populate services r =
      (Raise (AvatarServiceNotFoundError
                (format_error UNKNOWN_SERVICE_ENABLED (avatar_service_id culprit))),
       exec call_populate r) ∧
    (populated r = true → exec call_populate r = r).
Proof.
  intros Hr%reachable_invariant Hbad Hnone. simpl in *.
  destruct (populate_returns r Hr) as (r1 & Hpop & Hp1 & Hi1).
  rewrite Hpop in *. simpl in *.
  destruct (set_enabled_services_invariant r1 services Hp1 Hi1)
    as (o & r' & Hset & _ & _ & _ & Hfail).
  destruct (find (λ service, negb (registered r1 (avatar_service_id service)))
              (remove_dups services)) as [culprit|] eqn:Hfind.
  - destruct (Hfail culprit eq_refl) as [-> ->].
    apply find_some in Hfind as [Hin Hneg].
    rewrite <- list_elem_of_In, elem_of_remove_dups in Hin.
    apply negb_true_iff in Hneg.
    exists culprit. split_and!; try done.
    + by apply invariant_lookup.
    + unfold set_enabled_services in *. by rewrite (populate_first r r1 Hpop Hp1).
    + intros Hp. rewrite (populate_populated r Hp) in Hpop. congruence.
  - exfalso. rewrite <- elem_of_remove_dups, list_elem_of_In in Hbad.
    apply (find_none _ _ Hfind) in Hbad. apply negb_false_iff in Hbad.
    apply registered_lookup in Hbad as [? Hbad]. congruence.
Qed.

Lemma setter_fails_atomically_witness :
  reachable registry_AB ∧
  service_Q ∈ [service_B; service_Q] ∧
  registry (exec call_populate registry_AB) !! avatar_service_id service_Q = None ∧
  ∃ culprit,
    culprit ∈ [service_B; service_Q] ∧
    registry (exec call_populate registry_AB) !! avatar_service_id culprit = None ∧
    set_enabled_services populate [service_B; service_Q] registry_AB =
      (Raise (AvatarServiceNotFoundError
                (format_error UNKNOWN_SERVICE_ENABLED (avatar_service_id culprit))),
       exec call_populate registry_AB) ∧
    (populated registry_AB = true → exec call_populate registry_AB = registry_AB).
Proof.
  split; [apply reachable_registry_AB|].
  split; [apply list_elem_of_In; simpl; auto|].
  split; [vm_compute; reflexivity|].
  apply (setter_fails_atomically registry_AB [service_B; service_Q] service_Q).
  - apply reachable_registry_AB.
  - apply list_elem_of_In; simpl; auto.
  - vm_compute; reflexivity.
Defined.

Lemma load_default_effect d r :
  invariant r → _default_service_id r = None →
  registry (load_default d r) = registry r ∧
  _enabled_services (load_default d r) = _enabled_services r ∧
  _default_service_id (load_default d r) =
    match d with
    | Some sid =>
        if bool_decide (sid ∈ _enabled_services r) then Some sid else None
    | None => None
    end ∧
  logged (load_default d r) =
    logged r ++
    match d with
    | Some sid =>
        if bool_decide (is_Some (registry r !! sid)) then
          if bool_decide (sid ∈ _enabled_services r) then []
          else [format_error DISABLED_SERVICE_DEFAULT sid]
        else [format_error UNKNOWN_SERVICE_DEFAULT sid]
    | None => []
    end.
Proof.
  intros [Hk He _ _] Hd. unfold load_default. destruct d as [sid|].
  2: { by rewrite app_nil_r. }
  destruct (registry r !! sid) as [item|] eqn:Hl.
  - rewrite (Hk _ _ Hl), Hl. rewrite (bool_decide_eq_true_2 (Some item = Some item)) by done.
    rewrite (bool_decide_eq_true_2 (is_Some (Some item))) by eauto. simpl.
    rewrite (registered_true r sid Hk) by (rewrite Hl; eauto). simpl.
    case_bool_decide; simpl; [|done]. by rewrite app_nil_r.
  - rewrite (bool_decide_eq_false_2 (is_Some None)) by (by intros [??]).
    rewrite bool_decide_eq_false_2; [done|].
    intros [? ?]%He. congruence.
Qed.

(** C6. Tolerant population: on every registry a process can hold and
    whatever the site configuration holds, populate returns.  On a
    populated registry it changes nothing.  On a new one it registers the
    defaults, enables exactly the persisted ids that are registered and
    logs one error for each that is not, makes the persisted default id the
    default when it is enabled and otherwise logs an error (unknown when it
    is not registered, disabled when it is registered but not enabled) and
    leaves the default unset, and saves the reconciled state. *)
Theorem populate_tolerant r :
  reachable r →
  ∃ r',
    populate r = (Ok tt, r') ∧ populated r' = true ∧
    (populated r = true → r' = r) ∧
    (populated r = false →
     let ids := default [] (ENABLED_SERVICES_KEY (settings (siteconfig r))) in
     let d := DEFAULT_SERVICE_KEY (settings (siteconfig r)) in
     registry r' = {["gravatar" := GravatarService]} ∧
     (∀ sid, sid ∈ _enabled_services r' ↔
             sid ∈ ids ∧ is_Some (registry r' !! sid)) ∧
     _default_service_id r' =
       match d with
       | Some sid =>
           if bool_decide (sid ∈ _enabled_services r') then Some sid else None
       | None => None
       end ∧
     logged r' =
       (format_error UNKNOWN_SERVICE_ENABLED <$>
          filter (λ sid, registry r' !! sid = None) ids) ++
       match d with
       | Some sid =>
           if bool_decide (is_Some (registry r' !! sid)) then
             if bool_decide (sid ∈ _enabled_services r') then []
             else [format_error DISABLED_SERVICE_DEFAULT sid]
           else [format_error UNKNOWN_SERVICE_DEFAULT sid]
       | None => []
       end ∧
     stored (siteconfig r') =
       {| ENABLED_SERVICES_KEY := Some (elements (_enabled_services r'));
          DEFAULT_SERVICE_KEY := _default_service_id r' |}).
Proof.
  intros Hr%reachable_invariant. destruct (populated r) eqn:Hp.
  { exists r. rewrite (populate_populated r Hp). by split_and!. }
  rewrite (inv_fresh r Hr Hp). set (c := siteconfig r). simpl.
  eexists. split; [apply populate_init|].
  set (ids := default [] (ENABLED_SERVICES_KEY (settings c))).
  set (d := DEFAULT_SERVICE_KEY (settings c)).
  set (r0 := set_registry _ _).
  assert (populated r0 = true) as Hp0 by done.
  assert (invariant r0) as Hi0.
  { apply invariant_populated; try done.
    intros k item. simpl. by intros [<- <-]%lookup_singleton_Some. }
  assert (invariant (load_enabled ids r0)) as Hi2 by by apply load_enabled_invariant.
  destruct (load_default_effect d (load_enabled ids r0) Hi2)
    as (Hreg & Hen & Hdef & Hlog); [by rewrite load_enabled_default|].
  rewrite load_enabled_registry in Hreg.
  assert (∀ sid, registered r0 sid = true ↔ is_Some (registry r0 !! sid)) as Hreg0.
  { intros sid. rewrite (registered_keyed r0 sid) by by destruct Hi0.
    apply bool_decide_eq_true. }
  split.
  { change (populated (saved ?x)) with (populated x).
    by rewrite load_default_populated, load_enabled_populated. }
  split; [done|]. intros _.
  change (registry (saved ?x)) with (registry x).
  change (_enabled_services (saved ?x)) with (_enabled_services x).
  change (_default_service_id (saved ?x)) with (_default_service_id x).
  change (logged (saved ?x)) with (logged x).
  rewrite Hreg, Hen, Hdef, Hlog. split_and!; try done.
  - intros sid. rewrite load_enabled_enabled, Hreg0. set_solver.
  - rewrite load_enabled_logged, load_enabled_registry. simpl. f_equal. f_equal.
    apply list_filter_iff. intros sid.
    rewrite <- not_true_iff_false, Hreg0, <- eq_None_not_Some. done.
  - simpl. by rewrite Hen, Hdef.
Qed.

Lemma populate_tolerant_witness :
  reachable (init stale_siteconfig) ∧
  ∃ r',
    populate (init stale_siteconfig) = (Ok tt, r') ∧ populated r' = true ∧
    (populated (init stale_siteconfig) = true → r' = init stale_siteconfig) ∧
    (populated (init stale_siteconfig) = false →
     let ids := default [] (ENABLED_SERVICES_KEY
                              (settings (siteconfig (init stale_siteconfig)))) in
     let d := DEFAULT_SERVICE_KEY (settings (siteconfig (init stale_siteconfig))) in
     registry r' = {["gravatar" := GravatarService]} ∧
     (∀ sid, sid ∈ _enabled_services r' ↔
             sid ∈ ids ∧ is_Some (registry r' !! sid)) ∧
     _default_service_id r' =
       match d with
       | Some sid =>
           if bool_decide (sid ∈ _enabled_services r') then Some sid else None
       | None => None
       end ∧
     logged r' =
       (format_error UNKNOWN_SERVICE_ENABLED <$>
          filter (λ sid, registry r' !! sid = None) ids) ++
       match d with
       | Some sid =>
           if bool_decide (is_Some (registry r' !! sid)) then
             if bool_decide (sid ∈ _enabled_services r') then []
             else [format_error DISABLED_SERVICE_DEFAULT sid]
           else [format_error UNKNOWN_SERVICE_DEFAULT sid]
       | None => []
       end ∧
     stored (siteconfig r') =
       {| ENABLED_SERVICES_KEY := Some (elements (_enabled_services r'));
          DEFAULT_SERVICE_KEY := _default_service_id r' |}).
Proof.
  split; [apply reachable_init|].
  apply (populate_tolerant (init stale_siteconfig)). apply reachable_init.
Defined.

(** C8. Resolution order of for_user: on every registry a process can
    hold, for every user and optional service id, for_user returns (it
    never raises) the first of: the requested service if its id is given,
    registered and enabled; the service of the user's preferred id if it is
    registered and enabled; the default service, which may be [None].  It
    returns [None] when nothing resolves, and with B requested, registered
    and disabled and the user's preferred A enabled it returns A. *)
Theorem for_user_resolution r user sid :
  reachable r →
  let r1 := exec call_populate r in
  for_user populate user sid r = (Ok (for_user_spec r1 user sid), r1) ∧
  (usable r1 sid = None → usable r1 (preferred_service_id user) = None →
   _default_service_id r1 = None →
   for_user populate user sid r = (Ok None, r1)) ∧
  (∀ a b item_a,
     sid = Some b → preferred_service_id user = Some a →
     is_Some (registry r1 !! b) → b ∉ _enabled_services r1 →
     registry r1 !! a = Some item_a → a ∈ _enabled_services r1 →
     for_user populate user sid r = (Ok (Some item_a), r1)).
Proof.
  intros Hr%reachable_invariant. simpl.
  destruct (populate_returns r Hr) as (r1 & Hpop & Hp1 & Hi1).
  rewrite Hpop. simpl.
  assert (for_user populate user sid r = (Ok (for_user_spec r1 user sid), r1)) as ->.
  { rewrite (for_user_fresh r r1 Hpop Hp1). by apply for_user_populated. }
  split; [done|]. split.
  - intros H1 H2 H3. unfold for_user_spec. by rewrite H1, H2, H3.
  - intros a b item_a -> Ha _ Hb Hitem Hin. unfold for_user_spec, usable.
    rewrite Ha. rewrite bool_decide_eq_false_2, bool_decide_eq_true_2 by done.
    by rewrite Hitem.
Qed.

Lemma for_user_resolution_witness :
  reachable registry_AB ∧
  let r1 := exec call_populate registry_AB in
  for_user populate user_preferring_A (Some "B") registry_AB =
    (Ok (for_user_spec r1 user_preferring_A (Some "B")), r1) ∧
  (usable r1 (Some "B") = None →
   usable r1 (preferred_service_id user_preferring_A) = None →
   _default_service_id r1 = None →
   for_user populate user_preferring_A (Some "B") registry_AB = (Ok None, r1)) ∧
  (∀ a b item_a,
     Some "B" = Some b → preferred_service_id user_preferring_A = Some a →
     is_Some (registry r1 !! b) → b ∉ _enabled_services r1 →
     registry r1 !! a = Some item_a → a ∈ _enabled_services r1 →
     for_user populate user_preferring_A (Some "B") registry_AB =
       (Ok (Some item_a), r1)).
Proof.
  split; [apply reachable_registry_AB|].
  apply (for_user_resolution registry_AB user_preferring_A (Some "B")).
  apply reachable_registry_AB.
Defined.

(** The example of the spec, run: B is registered and disabled, the user
    prefers A, which is enabled. *)
Example for_user_prefers_enabled :
  for_user populate user_preferring_A (Some "B") registry_AB =
    (Ok (Some service_A), registry_AB).
Proof. vm_compute. reflexivity. Qed.

(** ** Unregistering a service that is not registered *)

(** C5, as the claim states it, fails: unregistering a service whose id is
    not registered raises the registry's lookup error
    [AvatarServiceNotFoundError] out of [disable_service], not
    [NotRegisteredError]; and unregistering a second object that carries a
    registered id disables the registered service, clears the default and
    saves before [NotRegisteredError] is raised. *)
Lemma unregister_absent_counterexample :
  registry registry_AB !! avatar_service_id service_Q = None ∧
  (unregister populate service_Q registry_AB).1 =
    Raise (AvatarServiceNotFoundError (format_error UNKNOWN_SERVICE_DISABLED "Q")) ∧
  ¬ (∃ msg, (unregister populate service_Q registry_AB).1 =
            Raise (NotRegisteredError msg)) ∧
  registry registry_AB !! avatar_service_id service_A_copy ≠ Some service_A_copy ∧
  (unregister populate service_A_copy registry_AB).1 =
    Raise (NotRegisteredError (format_error UNREGISTER "A")) ∧
  _default_service_id registry_AB = Some "A" ∧
  _default_service_id (unregister populate service_A_copy registry_AB).2 = None ∧
  (unregister populate service_A_copy registry_AB).2 ≠ registry_AB.
Proof.
  assert ((unregister populate service_Q registry_AB).1 =
          Raise (AvatarServiceNotFoundError
                   (format_error UNKNOWN_SERVICE_DISABLED "Q"))) as HQ
    by (vm_compute; reflexivity).
  split; [vm_compute; reflexivity|]. split; [exact HQ|].
  split. { intros [msg H]. rewrite HQ in H. discriminate H. }
  split. { vm_compute. intros H. discriminate H. }
  do 3 (split; [vm_compute; reflexivity|]).
  intros H. apply (f_equal _default_service_id) in H.
  vm_compute in H. discriminate H.
Qed.

(** C5, amended. For every service whose id is not registered,
    unregister raises the lookup error [AvatarServiceNotFoundError] that
    [disable_service] raises for an unknown id, and the registry is the one
    population left: a populated registry is left exactly as it was. *)
Theorem unregister_unknown_id r item :
  reachable r →
  registry (exec call_populate r) !! avatar_service_id item = None →
  unregister populate item r =
    (Raise (AvatarServiceNotFoundError
              (format_error UNKNOWN_SERVICE_DISABLED (avatar_service_id item))),
     exec call_populate r) ∧
  (populated r = true → exec call_populate r = r).
Proof.
  intros Hr%reachable_invariant Hnone. simpl in *.
  destruct (populate_returns r Hr) as (r1 & Hpop & Hp1 & Hi1).
  rewrite Hpop in *. simpl in *. split.
  - rewrite (unregister_fresh r r1 Hpop Hp1).
    apply (unregister_unknown populate populate_populated r1 item Hp1).
    unfold registered. by rewrite Hnone.
  - intros Hp. rewrite (populate_populated r Hp) in Hpop. congruence.
Qed.

Lemma unregister_unknown_id_witness :
  reachable registry_AB ∧
  registry (exec call_populate registry_AB) !! avatar_service_id service_Q = None ∧
  unregister populate service_Q registry_AB =
    (Raise (AvatarServiceNotFoundError
              (format_error UNKNOWN_SERVICE_DISABLED (avatar_service_id service_Q))),
     exec call_populate registry_AB) ∧
  (populated registry_AB = true → exec call_populate registry_AB = registry_AB).
Proof.
  split; [apply reachable_registry_AB|].
  split; [vm_compute; reflexivity|].
  apply (unregister_unknown_id registry_AB service_Q).
  - apply reachable_registry_AB.
  - vm_compute; reflexivity.
Defined.

(** ** Deferred save *)

(** C4 at its failing input: A is registered, enabled and the default;
    [disable_service("A", save=False)] removes A from the enabled ids and
    clears the default, and it writes both keys of the site configuration
    and commits them, through [set_default_service(None)], which saves. *)
Theorem disable_default_deferred_writes :
  _default_service_id registry_AB = Some "A" ∧
  stored (siteconfig registry_AB) =
    {| ENABLED_SERVICES_KEY := Some (elements (_enabled_services registry_AB));
       DEFAULT_SERVICE_KEY := Some "A" |} ∧
  ∃ r', disable_service populate "A" false registry_AB = (Ok tt, r') ∧
        ("A" ∉ _enabled_services r') ∧
        _default_service_id r' = None ∧
        siteconfig r' ≠ siteconfig registry_AB ∧
        stored (siteconfig r') =
          {| ENABLED_SERVICES_KEY := Some (elements (_enabled_services r'));
             DEFAULT_SERVICE_KEY := None |}.
Proof.
  split; [vm_compute; reflexivity|]. split; [vm_compute; reflexivity|].
  eexists. split; [vm_compute; reflexivity|].
  split_and!.
  - apply (bool_decide_unpack _). vm_compute. exact I.
  - vm_compute. reflexivity.
  - vm_compute. intros H. discriminate H.
  - vm_compute. reflexivity.
Qed.

(** Where the deferral works: disabling a service that is not the default
    with [save=False] leaves the site configuration as it was. *)
Lemma disable_other_deferred_frame r sid :
  reachable r → populated r = true → _default_service_id r ≠ Some sid →
  siteconfig (disable_service populate sid false r).2 = siteconfig r.
Proof.
  intros Hr%reachable_invariant Hp Hne.
  rewrite (disable_service_populated populate populate_populated r sid false Hp).
  destruct (registered r sid); [|done]. simpl.
  destruct (_default_service_id r) as [d|] eqn:Hd; [|done].
  pose proof (inv_default r Hr) as Hde. unfold default_is_enabled in Hde.
  rewrite Hd in Hde. destruct (inv_enabled r Hr d Hde) as [item Hitem].
  rewrite Hitem. rewrite (inv_keyed r Hr _ _ Hitem).
  rewrite bool_decide_eq_false_2; [done|]. congruence.
Qed.

End AvatarsFacts.

(** * Properties of the counter field *)

Module CounterFacts.
Import Counter.

Lemma emit_run e w :
  emit e w =
    (Ok tt, {| objects := objects w; table := table w; _locks := _locks w;
               events := events w ++ [e] |}).
Proof. done. Qed.

Lemma deref_run i inst w : objects w !! i = Some inst → deref i w = (Ok inst, w).
Proof. intros H. unfold deref, bind, gets. by rewrite H. Qed.

Lemma setattr_run i inst name v w :
  objects w !! i = Some inst →
  setattr i name v w =
    (Ok tt, set_objects
              (<[i := {| pk := pk inst; attrs := <[name := v]> (attrs inst) |}]>
                 (objects w)) w).
Proof. intros H. unfold setattr, bind. by rewrite (deref_run i inst w H). Qed.

Lemma queryset_update_run k column e w :
  queryset_update (Some k) column e w =
    (Ok tt,
     {| objects := objects w;
        table := alter (λ row, assign column (eval row e) row) k (table w);
        _locks := _locks w;
        events := events w ++ [UpdateQuery (Some k) column e] |}).
Proof. done. Qed.

Lemma _reload_run self i inst k row w :
  objects w !! i = Some inst → pk inst = Some k → table w !! k = Some row →
  _reload self i w =
    (Ok tt,
     {| objects :=
          <[i := {| pk := pk inst;
                    attrs := <[attname self := from_db (row !! attname self)]>
                               (attrs inst) |}]> (objects w);
        table := table w;
        _locks := _locks w;
        events := events w ++ [ValuesQuery (Some k) [attname self]] |}).
Proof.
  intros Hi Hk Hrow. unfold _reload, _reload_model_instance, bind at 1.
  rewrite (deref_run i inst w Hi). unfold bind at 1. rewrite emit_run.
  unfold bind at 1, gets. simpl. rewrite Hk. simpl. rewrite Hrow.
  simpl. unfold bind at 1. rewrite (setattr_run i inst) by exact Hi.
  by rewrite Hk.
Qed.

(** The update that [_increment] and [_decrement] send. *)
Lemma _increment_run self i inst k delta w :
  objects w !! i = Some inst → pk inst = Some k → delta ≠ 0%Z →
  _increment self i false delta w =
    queryset_update (Some k) (attname self) (expr_add (F (attname self)) delta) w.
Proof.
  intros Hi Hk Hd. unfold _increment.
  rewrite (proj2 (Z.eqb_neq delta 0) Hd). simpl. unfold bind at 1.
  rewrite (deref_run i inst w Hi). unfold increment, bind. rewrite Hk.
  by rewrite queryset_update_run.
Qed.

Lemma _decrement_run self i inst k delta w :
  objects w !! i = Some inst → pk inst = Some k → delta ≠ 0%Z →
  _decrement self i false delta w =
    queryset_update (Some k) (attname self) (expr_sub (F (attname self)) delta) w.
Proof.
  intros Hi Hk Hd. unfold _decrement.
  rewrite (proj2 (Z.eqb_neq delta 0) Hd). simpl. unfold bind at 1.
  rewrite (deref_run i inst w Hi). unfold decrement, bind. rewrite Hk.
  by rewrite queryset_update_run.
Qed.

Lemma stored_value_update w k column (op : Connector) delta v :
  stored_value w k column = Some v →
  stored_value
    {| objects := objects w;
       table := alter (λ row, assign column
                         (eval row (CombinedExpression (F column) op (Value delta))) row)
                  k (table w);
       _locks := _locks w;
       events := events w ++
                 [UpdateQuery (Some k) column
                    (CombinedExpression (F column) op (Value delta))] |} k column =
    Some (match op with ADD => v + delta | SUB => v - delta end)%Z.
Proof.
  unfold stored_value. simpl. rewrite lookup_alter_eq.
  destruct (table w !! k) as [row|]; [|done]. simpl. intros ->. simpl.
  by rewrite lookup_insert_eq.
Qed.

Lemma _increment_reload_run self i inst k delta w :
  objects w !! i = Some inst → pk inst = Some k → delta ≠ 0%Z →
  _increment self i true delta w =
    (queryset_update (Some k) (attname self) (expr_add (F (attname self)) delta) ;;;
     _reload self i) w.
Proof.
  intros Hi Hk Hd. unfold _increment.
  rewrite (proj2 (Z.eqb_neq delta 0) Hd). simpl. unfold bind at 1.
  rewrite (deref_run i inst w Hi). unfold increment. by rewrite Hk.
Qed.

Lemma _reload_events self i inst w :
  objects w !! i = Some inst →
  events (_reload self i w).2 = events w ++ [ValuesQuery (pk inst) [attname self]].
Proof.
  intros Hi. unfold _reload, _reload_model_instance, bind at 1.
  rewrite (deref_run i inst w Hi). unfold bind at 1. rewrite emit_run.
  unfold bind at 1, gets. simpl.
  destruct (pk inst ≫= _) as [row|]; [|done]. simpl. unfold bind at 1.
  by rewrite (setattr_run i inst) by exact Hi.
Qed.

(** C2. Counter increments and decrements are one storage-side update:
    for an instance with a primary key and a nonzero delta, [_increment]
    (and [_decrement]) sends exactly one update, [column = column + delta]
    ([column - delta]) filtered by the primary key, before anything is
    read and without touching the object in memory; the stored value moves
    by the delta; with [reload_object] the one read follows the update.
    Hence two increments by 1 sent through two objects of the same row
    before any reload take a stored 10 to 12, and a reload then reads 12. *)
Theorem increment_is_one_atomic_update self w i inst k delta :
  objects w !! i = Some inst → pk inst = Some k → delta ≠ 0%Z →
  (∃ w1,
     _increment self i false delta w = (Ok tt, w1) ∧
     events w1 = events w ++
       [UpdateQuery (Some k) (attname self)
          (CombinedExpression (F (attname self)) ADD (Value delta))] ∧
     objects w1 = objects w ∧
     ∀ v, stored_value w k (attname self) = Some v →
          stored_value w1 k (attname self) = Some (v + delta)%Z) ∧
  (∃ w1,
     _decrement self i false delta w = (Ok tt, w1) ∧
     events w1 = events w ++
       [UpdateQuery (Some k) (attname self)
          (CombinedExpression (F (attname self)) SUB (Value delta))] ∧
     objects w1 = objects w ∧
     ∀ v, stored_value w k (attname self) = Some v →
          stored_value w1 k (attname self) = Some (v - delta)%Z) ∧
  (∃ o w1,
     _increment self i true delta w = (o, w1) ∧
     events w1 = events w ++
       [UpdateQuery (Some k) (attname self)
          (CombinedExpression (F (attname self)) ADD (Value delta));
        ValuesQuery (Some k) [attname self]] ∧
     ∀ v, stored_value w k (attname self) = Some v →
          o = Ok tt ∧ attribute w1 i (attname self) = Some (PyInt (v + delta)%Z)) ∧
  (∀ j inst',
     objects w !! j = Some inst' → pk inst' = Some k →
     stored_value w k (attname self) = Some 10%Z →
     ∃ w2,
       (_increment self i false 1 ;;; _increment self j false 1) w = (Ok tt, w2) ∧
       stored_value w2 k (attname self) = Some 12%Z ∧
       ∃ w3, _reload self i w2 = (Ok tt, w3) ∧
             attribute w3 i (attname self) = Some (PyInt 12)).
Proof.
  intros Hi Hk Hd. split_and!.
  - eexists. rewrite (_increment_run self i inst k delta w Hi Hk Hd).
    rewrite queryset_update_run. split; [done|]. split_and!; try done.
    intros v Hv. by apply (stored_value_update w k (attname self) ADD).
  - eexists. rewrite (_decrement_run self i inst k delta w Hi Hk Hd).
    rewrite queryset_update_run. split; [done|]. split_and!; try done.
    intros v Hv. by apply (stored_value_update w k (attname self) SUB).
  - rewrite (_increment_reload_run self i inst k delta w Hi Hk Hd).
    unfold bind at 1. rewrite queryset_update_run.
    set (w1 := {| objects := objects w; table := _; _locks := _; events := _ |}).
    eexists _, _. split; [apply surjective_pairing|]. split.
    + rewrite (_reload_events self i inst w1 Hi). simpl.
      by rewrite Hk, <- app_assoc.
    + intros v Hv.
      assert (stored_value w1 k (attname self) = Some (v + delta)%Z) as Hv1
        by apply (stored_value_update w k (attname self) ADD delta v Hv).
      unfold stored_value in Hv1.
      destruct (table w1 !! k) as [row|] eqn:Hrow; [|done]. simpl in Hv1.
      rewrite (_reload_run self i inst k row w1 Hi Hk Hrow). split; [done|].
      unfold attribute, getattr. simpl.
      by rewrite lookup_insert_eq; simpl; rewrite lookup_insert_eq, Hv1.
  - intros j inst' Hj Hk' Hv. unfold bind at 1.
    rewrite (_increment_run self i inst k 1 w Hi Hk) by done.
    rewrite queryset_update_run.
    set (w1 := {| objects := objects w; table := _; _locks := _; events := _ |}).
    assert (stored_value w1 k (attname self) = Some (10 + 1)%Z) as Hv1
      by apply (stored_value_update w k (attname self) ADD 1 10 Hv).
    rewrite (_increment_run self j inst' k 1 w1 Hj Hk') by done.
    rewrite queryset_update_run.
    set (w2 := {| objects := objects w1; table := _; _locks := _; events := _ |}).
    assert (stored_value w2 k (attname self) = Some 12%Z) as Hv2
      by apply (stored_value_update w1 k (attname self) ADD 1 _ Hv1).
    exists w2. split_and!; try done.
    unfold stored_value in Hv2.
    destruct (table w2 !! k) as [row|] eqn:Hrow; [|done]. simpl in Hv2.
    eexists. rewrite (_reload_run self i inst k row w2 Hi Hk Hrow). split; [done|].
    unfold attribute, getattr. simpl.
    by rewrite lookup_insert_eq; simpl; rewrite lookup_insert_eq, Hv2.
Qed.

Lemma increment_is_one_atomic_update_witness :
  objects two_writers !! 1%nat =
    Some {| pk := Some 7%Z; attrs := {[ "n" := PyInt 10 ]} |} ∧
  stored_value two_writers 7 "n" = Some 10%Z ∧
  ∃ w2,
    (_increment counter_n 1 false 1 ;;; _increment counter_n 2 false 1) two_writers
      = (Ok tt, w2) ∧
    stored_value w2 7 (attname counter_n) = Some 12%Z ∧
    ∃ w3, _reload counter_n 1 w2 = (Ok tt, w3) ∧
          attribute w3 1 (attname counter_n) = Some (PyInt 12).
Proof.
  split; [vm_compute; reflexivity|]. split; [vm_compute; reflexivity|].
  apply (increment_is_one_atomic_update counter_n two_writers 1
           {| pk := Some 7%Z; attrs := {[ "n" := PyInt 10 ]} |} 7 1)
    with (j := 2%nat) (inst' := {| pk := Some 7%Z; attrs := {[ "n" := PyInt 10 ]} |}).
  - vm_compute; reflexivity.
  - reflexivity.
  - lia.
  - vm_compute; reflexivity.
  - reflexivity.
  - vm_compute; reflexivity.
Defined.

Lemma pk_truthy_Some inst k : pk inst = Some k → k ≠ 0%Z → pk_truthy inst = true.
Proof.
  intros Hk Hn. unfold pk_truthy. rewrite Hk.
  by rewrite (proj2 (Z.eqb_neq k 0) Hn).
Qed.

(** [save(update_fields=[attname])] of the counter: the field is named, so
    [_model_do_update] lets it through. *)
Lemma save_counter_run self i inst w :
  objects w !! i = Some inst →
  save self i [attname self] w =
    let w1 := {| objects := objects w; table := table w; _locks := _locks w;
                 events := events w ++
                   [SaveQuery (pk inst)
                      [(attname self, getattr inst (attname self))]] |} in
    match pk inst ≫= λ k, table w !! k with
    | Some row =>
        (Ok tt,
         set_table
           (<[default 0%Z (pk inst) :=
                assign (attname self)
                  (to_db row (getattr inst (attname self))) row]> (table w)) w1)
    | None => (Raise DatabaseError, w1)
    end.
Proof.
  intros Hi. unfold save, bind at 1. rewrite (deref_run i inst w Hi).
  unfold bind at 1, _model_do_update. simpl.
  rewrite filter_cons_True.
  2: { right. right. split_and!; try done. simpl. by left. }
  rewrite filter_nil. unfold base_do_update, bind at 1. rewrite emit_run.
  unfold bind at 1, gets. simpl.
  by destruct (pk inst ≫= _).
Qed.



(** ** What the steps of [_reinit] leave alone *)

Lemma initializer_calls_snoc i l e :
  initializer_calls i (l ++ [e]) =
    (initializer_calls i l + if is_call_for i e then 1 else 0)%nat.
Proof.
  unfold initializer_calls. rewrite filter_app, length_app.
  destruct (is_call_for i e) eqn:He.
  - by rewrite filter_cons_True.
  - rewrite filter_cons_False by by rewrite He. done.
Qed.

Lemma silent_refl j w : silent j w w.
Proof. by split. Qed.

Lemma silent_trans j w1 w2 w3 : silent j w1 w2 → silent j w2 w3 → silent j w1 w3.
Proof.
  intros [Hl1 Ho1 Hc1] [Hl2 Ho2 Hc2]. split.
  - congruence.
  - intros i Hi. by rewrite Ho2, Ho1.
  - intros i. by rewrite Hc2, Hc1.
Qed.

Lemma quiet_ret {A} j (a : A) : quiet j (ret a).
Proof. intros w o w' [= _ <-]. apply silent_refl. Qed.

Lemma quiet_raise {A} j e : quiet j (raise e : Op A).
Proof. intros w o w' [= _ <-]. apply silent_refl. Qed.

Lemma quiet_gets {A} j (f : World → A) : quiet j (gets f).
Proof. intros w o w' [= _ <-]. apply silent_refl. Qed.

Lemma quiet_bind {A B} j (m : Op A) (k : A → Op B) :
  quiet j m → (∀ a, quiet j (k a)) → quiet j (bind m k).
Proof.
  intros Hm Hk w o w'. unfold bind.
  destruct (m w) as [[a|e] w1] eqn:Hmw.
  - intros Hkw. eapply silent_trans; [by eapply Hm|by eapply Hk].
  - intros [= _ <-]. by eapply Hm.
Qed.

Lemma quiet_when j c (m : Op unit) : quiet j m → quiet j (when c m).
Proof. destruct c; [done|]. intros _. apply quiet_ret. Qed.

Lemma quiet_for_each {A} j (l : list A) (body : A → Op unit) :
  (∀ x, quiet j (body x)) → quiet j (for_each l body).
Proof.
  intros Hb. induction l as [|x l IH]; [apply quiet_ret|].
  simpl. apply quiet_bind; [apply Hb|done].
Qed.

Lemma quiet_emit j e : (∀ i, is_call_for i e = false) → quiet j (emit e).
Proof.
  intros He w o w' [= _ <-]. split; try done. intros i. simpl.
  by rewrite initializer_calls_snoc, He, Nat.add_0_r.
Qed.

Lemma quiet_deref j t : quiet j (deref t).
Proof.
  apply quiet_bind; [apply quiet_gets|]. intros o.
  destruct (o !! t); [apply quiet_ret|apply quiet_raise].
Qed.

Lemma quiet_setattr j name v : quiet j (setattr j name v).
Proof.
  apply quiet_bind; [apply quiet_deref|]. intros inst w o w' [= _ <-].
  split; try done. intros i Hi. simpl. by rewrite lookup_insert_ne.
Qed.

Lemma quiet_queryset_update j filter_pk column value :
  quiet j (queryset_update filter_pk column value).
Proof.
  apply quiet_bind; [by apply quiet_emit|]. intros _.
  destruct filter_pk; [|apply quiet_ret]. by intros w o w' [= _ <-].
Qed.

Lemma quiet_reload j attnames : quiet j (_reload_model_instance j attnames).
Proof.
  apply quiet_bind; [apply quiet_deref|]. intros inst.
  apply quiet_bind; [by apply quiet_emit|]. intros _.
  apply quiet_bind; [apply quiet_gets|]. intros t.
  destruct (pk inst ≫= _); [|apply quiet_raise].
  apply quiet_for_each. intros name. apply quiet_setattr.
Qed.

Lemma quiet_save self j update_fields : quiet j (save self j update_fields).
Proof.
  apply quiet_bind; [apply quiet_deref|]. intros inst.
  apply quiet_bind.
  - unfold _model_do_update, base_do_update.
    apply quiet_bind; [by apply quiet_emit|]. intros _.
    apply quiet_bind; [apply quiet_gets|]. intros t.
    destruct (pk inst ≫= _); [|apply quiet_ret].
    apply quiet_bind; [|intros; apply quiet_ret].
    by intros w o w' [= _ <-].
  - intros b. apply quiet_when, quiet_raise.
Qed.

(** The second half of [_reinit], the lines under [if value is not None]. *)
Local Abbreviation store self j value :=
  (let! inst := deref j in
   let is_expr := is_expression value in
   let value' := if is_expr && negb (pk_truthy inst) then PyInt 0 else value in
   match value' with
   | PyExpr e =>
       queryset_update (pk inst) (attname self) e ;;;
       _reload_model_instance j [attname self]
   | _ =>
       setattr j (attname self) value' ;;;
       let! inst := deref j in
       when (pk_truthy inst) (save self j [attname self])
   end) (only parsing).

Lemma quiet_store self j (value : PyValue) : quiet j (store self j value).
Proof.
  apply quiet_bind; [apply quiet_deref|]. intros inst. simpl.
  assert (∀ v, quiet j (setattr j (attname self) v ;;;
                         let! inst := deref j in
                         when (pk_truthy inst) (save self j [attname self]))) as Hset.
  { intros v. apply quiet_bind; [apply quiet_setattr|]. intros _.
    apply quiet_bind; [apply quiet_deref|]. intros inst'.
    apply quiet_when, quiet_save. }
  destruct (is_expression value && negb (pk_truthy inst)); [apply Hset|].
  destruct value; try apply Hset.
  apply quiet_bind; [apply quiet_queryset_update|]. intros _. apply quiet_reload.
Qed.

Lemma frame_refl i w : frame i w w.
Proof. by split. Qed.

Lemma frame_trans i w1 w2 w3 : frame i w1 w2 → frame i w2 w3 → frame i w1 w3.
Proof. intros [Ho1 Hl1 Hc1] [Ho2 Hl2 Hc2]. split; congruence. Qed.

Lemma keeps_bind {A B} i (m : Op A) (k : A → Op B) :
  keeps i m → (∀ a, keeps i (k a)) → keeps i (bind m k).
Proof.
  intros Hm Hk w o w' Hlock. unfold bind.
  destruct (m w) as [[a|e] w1] eqn:Hmw.
  - intros Hkw. pose proof (Hm w _ _ Hlock Hmw) as Hf.
    eapply frame_trans; [done|]. eapply Hk; [|done].
    by rewrite (frame_lock _ _ _ Hf).
  - intros [= _ <-]. by eapply Hm.
Qed.

Lemma keeps_quiet {A} i j (m : Op A) : i ≠ j → quiet j m → keeps i m.
Proof.
  intros Hij Hq w o w' _ Hm. destruct (Hq w o w' Hm) as [Hl Ho Hc].
  split; [by apply Ho|by rewrite Hl|done].
Qed.

Lemma keeps_ret {A} i (a : A) : keeps i (ret a).
Proof. apply (keeps_quiet i (S i)); [lia|apply quiet_ret]. Qed.

Lemma keeps_raise {A} i e : keeps i (raise e : Op A).
Proof. apply (keeps_quiet i (S i)); [lia|apply quiet_raise]. Qed.

Lemma keeps_deref i t : keeps i (deref t).
Proof. apply (keeps_quiet i (S i)); [lia|apply quiet_deref]. Qed.

Section Nested.

Variable i : nat.
Variable self : CounterField.
Variable send : option nat → Op unit.
Hypothesis keeps_send : ∀ t, keeps i (send t).

Lemma keeps_run s : keeps i (run self send s).
Proof.
  induction s as [v|t s IH|t next IH]; simpl.
  - apply keeps_ret.
  - apply keeps_bind; [apply keeps_send|done].
  - apply keeps_bind; [apply keeps_deref|]. intros inst. apply IH.
Qed.

Lemma keeps_reinit j : i ≠ j → keeps i (_reinit self send j).
Proof.
  intros Hij. unfold _reinit.
  apply keeps_bind; [apply keeps_deref|]. intros inst.
  destruct (negb _); [apply keeps_ret|].
  apply keeps_bind.
  - destruct (_initializer self) as [[e|f]|]; try apply keeps_ret.
    apply keeps_bind.
    { intros w o w' _ [= _ <-]. split; try done. simpl.
      by rewrite lookup_insert_ne. }
    intros _. apply keeps_bind.
    + unfold call_initializer. apply keeps_bind.
      { intros w o w' _ [= _ <-]. split; try done. simpl.
        rewrite initializer_calls_snoc. simpl.
        rewrite bool_decide_eq_false_2 by done. lia. }
      intros _. apply keeps_bind; [apply keeps_deref|]. intros inst'.
      apply keeps_run.
    + intros v. apply keeps_bind; [|intros; apply keeps_ret].
      intros w o w' _. unfold del_lock, bind, gets. simpl.
      destruct (_locks w !! j); intros [= _ <-]; [|apply frame_refl].
      split; try done. simpl. by rewrite lookup_delete_ne.
  - intros value. destruct (is_None value); [apply keeps_ret|].
    apply (keeps_quiet i j); [done|]. apply quiet_store.
Qed.

Lemma keeps_post_init t : keeps i (_post_init self send t).
Proof.
  intros w o w' Hlock. destruct t as [j|]; simpl.
  2: { intros [= _ <-]. apply frame_refl. }
  unfold bind, gets. case_bool_decide as Hj; simpl.
  - assert (i ≠ j) as Hij.
    { intros ->. rewrite Hj in Hlock. by destruct Hlock. }
    assert (keeps i (_do_post_init self send j)) as Hk; [|by apply Hk].
    unfold _do_post_init. apply keeps_bind; [apply keeps_deref|]. intros inst.
    destruct (is_None _); simpl; [by apply keeps_reinit|apply keeps_ret].
  - intros [= _ <-]. apply frame_refl.
Qed.

End Nested.

Lemma keeps_post_init_at i depth self t : keeps i (post_init_at depth self t).
Proof.
  revert t. induction depth as [|d IH]; intros t; simpl.
  - apply keeps_raise.
  - by apply keeps_post_init.
Qed.


(** An expression on an instance without a primary key becomes 0, and
    nothing is sent to the storage engine. *)
Lemma store_coerced self i inst e w :
  objects w !! i = Some inst → pk_truthy inst = false →
  store self i (PyExpr e) w =
    (Ok tt,
     set_objects
       (<[i := {| pk := pk inst;
                  attrs := <[attname self := PyInt 0]> (attrs inst) |}]> (objects w))
       w).
Proof.
  intros Hi Hpk. unfold bind at 1. rewrite (deref_run i inst w Hi). simpl.
  rewrite Hpk. simpl.
  unfold bind at 1. rewrite (setattr_run i inst _ _ w Hi).
  set (inst' := {| pk := pk inst; attrs := _ |}).
  set (w1 := set_objects _ w).
  assert (objects w1 !! i = Some inst') as Hi1 by apply lookup_insert_eq.
  unfold bind at 1. rewrite (deref_run i inst' w1 Hi1).
  by assert (pk_truthy inst' = false) as -> by done.
Qed.

(** [_reinit] with a callable initializer, cut at the call. *)
Lemma _reinit_callable_run self send f i inst w :
  _initializer self = Some (InitCallable f) → objects w !! i = Some inst →
  _reinit self send i w =
    match call_initializer self send f i (lock i w) with
    | (Raise e, w2) => (Raise e, w2)
    | (Ok value, w2) =>
        match _locks w2 !! i with
        | None => (Raise KeyError, w2)
        | Some _ =>
            let w3 := set_locks (delete i (_locks w2)) w2 in
            if is_None value then (Ok tt, w3) else store self i value w3
        end
    end.
Proof.
  intros Hinit Hi. unfold _reinit, bind at 1. rewrite (deref_run i inst w Hi), Hinit.
  rewrite orb_true_r. simpl. unfold bind at 1, bind at 1. simpl.
  fold (lock i w). unfold bind at 1.
  destruct (call_initializer self send f i (lock i w)) as [[value|e] w2]; [|done].
  unfold bind at 1, del_lock, bind at 1, gets. simpl.
  destruct (_locks w2 !! i); [|done]. simpl.
  by destruct (is_None value).
Qed.

(** The initializer runs with the lock of its instance held, and leaves
    the instance, the lock and the count of its own calls as they are. *)
Lemma call_initializer_frame self send f i inst w o w2 :
  (∀ t, keeps i (send t)) →
  objects w !! i = Some inst →
  call_initializer self send f i (lock i w) = (o, w2) →
  objects w2 !! i = Some inst ∧ _locks w2 !! i = Some 1%nat ∧
  initializer_calls i (events w2) = S (initializer_calls i (events w)).
Proof.
  intros Hsend Hi. unfold call_initializer, bind at 1. rewrite emit_run.
  set (w1 := {| objects := _; table := _; _locks := _; events := _ |}).
  assert (objects w1 !! i = Some inst) as Hi1 by done.
  assert (_locks w1 !! i = Some 1%nat) as Hl1 by apply lookup_insert_eq.
  unfold bind at 1. rewrite (deref_run i inst w1 Hi1). intros Hrun.
  destruct (keeps_run i self send Hsend (f i inst) w1 o w2) as [Ho Hl Hc];
    [by rewrite Hl1|done|].
  rewrite Ho, Hl, Hc. split_and!; try done.
  simpl. rewrite initializer_calls_snoc. simpl.
  rewrite bool_decide_eq_true_2 by done. lia.
Qed.

Lemma post_init_locked d self i w :
  is_Some (_locks w !! i) → post_init_at (S d) self (Some i) w = (Ok tt, w).
Proof.
  intros [n Hn]. simpl. unfold _post_init, bind, gets. simpl.
  by rewrite bool_decide_eq_false_2 by by rewrite Hn.
Qed.

Lemma post_init_unset d self i inst w :
  objects w !! i = Some inst → getattr inst (attname self) = PyNone →
  _locks w !! i = None →
  post_init_at (S d) self (Some i) w = _reinit self (post_init_at d self) i w.
Proof.
  intros Hi Hv Hl. simpl. unfold _post_init, bind at 1, gets. simpl.
  rewrite bool_decide_eq_true_2 by done. simpl.
  unfold _do_post_init, bind at 1. rewrite (deref_run i inst w Hi).
  by rewrite Hv.
Qed.



(** The run of the witness: the initializer has instance 3 loaded twice
    while it runs and returns 5; it is called once and 3 ends with 5. *)
Example lazy_init_self_loading :
  ∃ w', post_init_at 2 counter_self (Some 3%nat) two_writers = (Ok tt, w') ∧
        events w' = [InitializerCall 3] ∧
        attribute w' 3 "n" = Some (PyInt 5) ∧
        _locks w' = ∅.
Proof. eexists. split; [vm_compute; reflexivity|]. by vm_compute. Qed.

(** C7. Deferred-expression coercion before the first save: when the
    initializer yields a query expression, as the initializer itself or as
    what the initializer function returns, and the instance has no primary
    key, reinit returns with the attribute set to the integer 0, and from
    the point the initializer has yielded it sends nothing to the storage
    engine: no event is added and the table is untouched. *)
Theorem deferred_expression_coerced depth self w i inst e :
  objects w !! i = Some inst → pk inst = None →
  (_initializer self = Some (InitExpression e) →
   ∃ w',
     reinit depth self i w = (Ok tt, w') ∧
     attribute w' i (attname self) = Some (PyInt 0) ∧
     events w' = events w ∧ table w' = table w) ∧
  (∀ f w2,
     _initializer self = Some (InitCallable f) →
     call_initializer self (post_init_at depth self) f i (lock i w)
       = (Ok (PyExpr e), w2) →
     ∃ w',
       reinit depth self i w = (Ok tt, w') ∧
       attribute w' i (attname self) = Some (PyInt 0) ∧
       events w' = events w2 ∧ table w' = table w2).
Proof.
  intros Hi Hpk.
  assert (pk_truthy inst = false) as Hfalsy by (unfold pk_truthy; by rewrite Hpk).
  split.
  - intros Hinit. unfold reinit.
    assert (_reinit self (post_init_at depth self) i w = store self i (PyExpr e) w)
      as ->.
    { unfold _reinit, bind at 1.
      by rewrite (deref_run i inst w Hi), Hinit, orb_true_r. }
    rewrite (store_coerced self i inst e w Hi Hfalsy).
    eexists. split; [done|]. split; [|done].
    unfold attribute, getattr. simpl. rewrite lookup_insert_eq. simpl.
    by rewrite lookup_insert_eq.
  - intros f w2 Hinit Hcall. unfold reinit.
    rewrite (_reinit_callable_run self _ f i inst w Hinit Hi), Hcall.
    destruct (call_initializer_frame self _ f i inst w _ _
                (keeps_post_init_at i depth self) Hi Hcall) as (Ho2 & Hl2 & _).
    rewrite Hl2. lazy zeta. change (is_None (PyExpr e)) with false. lazy iota.
    rewrite (store_coerced self i inst e (set_locks (delete i (_locks w2)) w2)
               Ho2 Hfalsy).
    eexists. split; [done|]. split; [|done].
    unfold attribute, getattr. simpl. rewrite lookup_insert_eq. simpl.
    by rewrite lookup_insert_eq.
Qed.

Lemma deferred_expression_coerced_witness :
  objects two_writers !! 3%nat = Some {| pk := None; attrs := ∅ |} ∧
  pk {| pk := None; attrs := ∅ |} = None ∧
  _initializer counter_expr = Some (InitExpression (expr_add (F "m") 1)) ∧
  ∃ w',
    reinit 1 counter_expr 3 two_writers = (Ok tt, w') ∧
    attribute w' 3 (attname counter_expr) = Some (PyInt 0) ∧
    events w' = events two_writers ∧ table w' = table two_writers.
Proof.
  split; [vm_compute; reflexivity|]. split; [reflexivity|]. split; [reflexivity|].
  apply (deferred_expression_coerced 1 counter_expr two_writers 3
           {| pk := None; attrs := ∅ |} (expr_add (F "m") 1)).
  - vm_compute; reflexivity.
  - reflexivity.
  - reflexivity.
Defined.

(** ** Initializers that load and read their own instance *)

Lemma run_self_contained d self i inst s w :
  self_contained i s → objects w !! i = Some inst → is_Some (_locks w !! i) →
  run self (post_init_at (S d) self) s w =
    (Ok (script_value (getattr inst (attname self)) s), w).
Proof.
  intros Hs Hi Hl.
  induction s as [v|t s IH|t next IH]; cbn [run self_contained script_value] in *.
  - done.
  - destruct Hs as [-> Hs]. unfold bind.
    rewrite (post_init_locked d self i w Hl). by apply IH.
  - destruct Hs as [-> Hs]. unfold bind at 1. rewrite (deref_run i inst w Hi).
    by apply IH.
Qed.

(** Lazy initialization returns for such an initializer: on an instance
    that is not saved yet, the one event is the call of the initializer,
    the returned integer is set and the locks are as before. *)
Lemma lazy_init_self_contained d self f w i inst z :
  _initializer self = Some (InitCallable f) →
  objects w !! i = Some inst →
  getattr inst (attname self) = PyNone →
  _locks w !! i = None →
  pk_truthy inst = false →
  self_contained i (f i inst) →
  script_value PyNone (f i inst) = PyInt z →
  ∃ w',
    post_init_at (S (S d)) self (Some i) w = (Ok tt, w') ∧
    attribute w' i (attname self) = Some (PyInt z) ∧
    events w' = events w ++ [InitializerCall i] ∧
    _locks w' = _locks w ∧ table w' = table w.
Proof.
  intros Hinit Hi Hv Hl Hpk Hs Hz.
  rewrite (post_init_unset (S d) self i inst w Hi Hv Hl).
  rewrite (_reinit_callable_run self _ f i inst w Hinit Hi).
  unfold call_initializer, bind at 1. rewrite emit_run.
  set (w1 := {| objects := _; table := _; _locks := _; events := _ |}).
  assert (objects w1 !! i = Some inst) as Hi1 by done.
  assert (_locks w1 !! i = Some 1%nat) as Hl1 by apply lookup_insert_eq.
  unfold bind at 1. rewrite (deref_run i inst w1 Hi1).
  rewrite (run_self_contained d self i inst _ w1 Hs Hi1) by by rewrite Hl1.
  rewrite Hv, Hz, Hl1. lazy zeta. change (is_None (PyInt z)) with false. lazy iota.
  set (w3 := set_locks _ w1).
  assert (objects w3 !! i = Some inst) as Hi3 by done.
  unfold bind at 1. rewrite (deref_run i inst w3 Hi3). simpl.
  unfold bind at 1. rewrite (setattr_run i inst _ _ w3 Hi3).
  set (inst' := {| pk := pk inst; attrs := _ |}).
  set (w4 := set_objects _ w3).
  assert (objects w4 !! i = Some inst') as Hi4 by apply lookup_insert_eq.
  unfold bind at 1. rewrite (deref_run i inst' w4 Hi4).
  assert (pk_truthy inst' = false) as -> by done. simpl.
  eexists. split; [done|]. split_and!; try done.
  - unfold attribute. rewrite Hi4. simpl. unfold getattr. simpl.
    by rewrite lookup_insert_eq.
  - simpl. rewrite delete_insert_eq. by apply delete_id.
Qed.

End CounterFacts.

(** * More of the registry *)

Module AvatarsMore.
Import Avatars AvatarsFacts.

(** What a call on a registry that may not be populated yet starts from. *)
Lemma populated_start r :
  reachable r →
  ∃ r1, populate r = (Ok tt, r1) ∧ exec call_populate r = r1 ∧
        populated r1 = true ∧ invariant r1.
Proof.
  intros Hr%reachable_invariant.
  destruct (populate_returns r Hr) as (r1 & Hpop & Hp1 & Hi1).
  exists r1. simpl. by rewrite Hpop.
Qed.

Lemma set_default_service_fresh r r1 svc sv :
  populate r = (Ok tt, r1) → populated r1 = true →
  set_default_service populate svc sv r = set_default_service populate svc sv r1.
Proof. intros. unfold set_default_service. by apply populate_first. Qed.

Lemma set_enabled_services_fresh r r1 l :
  populate r = (Ok tt, r1) → populated r1 = true →
  set_enabled_services populate l r = set_enabled_services populate l r1.
Proof. intros. unfold set_enabled_services. by apply populate_first. Qed.

Lemma enabled_services_fresh r r1 :
  populate r = (Ok tt, r1) → populated r1 = true →
  enabled_services populate r = enabled_services populate r1.
Proof. intros. unfold enabled_services. by apply populate_first. Qed.

Lemma configurable_services_fresh r r1 :
  populate r = (Ok tt, r1) → populated r1 = true →
  configurable_services populate r = configurable_services populate r1.
Proof. intros. unfold configurable_services. by apply populate_first. Qed.

(** The registry that [disable_service] leaves for a registered id. *)
Lemma disable_service_exact r sid sv :
  populated r = true → invariant r → is_Some (registry r !! sid) →
  ∃ r',
    disable_service populate sid sv r = (Ok tt, r') ∧
    populated r' = true ∧ invariant r' ∧
    registry r' = registry r ∧ logged r' = logged r ∧
    _enabled_services r' = _enabled_services r ∖ {[sid]} ∧
    _default_service_id r' =
      (if bool_decide (_default_service_id r = Some sid) then None
       else _default_service_id r) ∧
    (sv = false → _default_service_id r ≠ Some sid →
     siteconfig r' = siteconfig r).
Proof.
  intros Hp Hi Hreg. pose proof Hi as [Hk He Hd Hf].
  destruct (disable_service_invariant r sid sv Hp Hi)
    as (o & r' & Hrun & Hp' & Hi' & Hreg' & Hok & _).
  destruct Hok as (-> & _ & _); [by apply registered_true|].
  exists r'. split; [done|]. split_and!; try done.
  all: rewrite (disable_service_populated populate populate_populated r sid sv Hp)
    in Hrun;
    rewrite (registered_true r sid Hk Hreg) in Hrun; simpl in Hrun.
  all: destruct (_default_service_id r) as [d|] eqn:Hdef.
  all: try (unfold default_is_enabled in Hd; rewrite Hdef in Hd;
            destruct (He d Hd) as [item Hitem]; rewrite Hitem in Hrun;
            rewrite (Hk _ _ Hitem) in Hrun).
  all: repeat case_bool_decide; simplify_eq; destruct sv; simplify_eq; try done.
Qed.

Lemma enable_service_exact r sid sv :
  populated r = true → invariant r → is_Some (registry r !! sid) →
  ∃ r',
    enable_service populate sid sv r = (Ok tt, r') ∧
    populated r' = true ∧ invariant r' ∧
    registry r' = registry r ∧ logged r' = logged r ∧
    _enabled_services r' = {[sid]} ∪ _enabled_services r ∧
    _default_service_id r' = _default_service_id r ∧
    (sv = false → siteconfig r' = siteconfig r).
Proof.
  intros Hp Hi Hreg.
  assert (registered r sid = true) as Hr by (apply registered_true; [apply Hi|done]).
  rewrite (enable_service_populated populate populate_populated r sid sv Hp), Hr.
  pose proof (invariant_enable r sid Hp Hi Hr) as Hi'.
  eexists. split; [done|].
  destruct sv; split_and!; try done. by apply invariant_saved.
Qed.

(** The two loops of the [enabled_services] setter. *)
Lemma disable_loop (l : list string) r :
  populated r = true → invariant r →
  (∀ sid, sid ∈ l → is_Some (registry r !! sid)) →
  ∃ r',
    for_each l (λ sid, disable_service populate sid false) r = (Ok tt, r') ∧
    populated r' = true ∧ invariant r' ∧
    registry r' = registry r ∧ logged r' = logged r ∧
    _enabled_services r' = _enabled_services r ∖ list_to_set l ∧
    _default_service_id r' =
      match _default_service_id r with
      | Some d => if bool_decide (d ∈ l) then None else Some d
      | None => None
      end.
Proof.
  revert r. induction l as [|sid l IH]; intros r Hp Hi Hl.
  - exists r. split_and!; try done; [set_solver|].
    destruct (_default_service_id r); [|done].
    rewrite bool_decide_eq_false_2; [done|]. by intros ?%elem_of_nil.
  - destruct (disable_service_exact r sid false Hp Hi)
      as (r1 & Hrun & Hp1 & Hi1 & Hreg1 & Hlog1 & Hen1 & Hdef1 & _);
      [apply Hl; by left|].
    destruct (IH r1 Hp1 Hi1) as (r2 & Hrun2 & Hp2 & Hi2 & Hreg2 & Hlog2 & Hen2 & Hdef2).
    { intros x Hx. rewrite Hreg1. apply Hl. by right. }
    exists r2. simpl. unfold bind. rewrite Hrun, Hrun2.
    split_and!; try done; try congruence.
    + rewrite Hen2, Hen1. set_solver.
    + rewrite Hdef2, Hdef1. destruct (_default_service_id r) as [d|]; [|done].
      case_bool_decide as H1; simplify_eq.
      * rewrite bool_decide_eq_true_2; [done|]. by left.
      * destruct (decide (d ∈ l)) as [Hin|Hin].
        -- rewrite !bool_decide_eq_true_2; [done| |done]. by right.
        -- rewrite !bool_decide_eq_false_2; [done| |done].
           intros [?|?]%elem_of_cons; congruence.
Qed.

Lemma enable_loop (l : list string) r :
  populated r = true → invariant r →
  (∀ sid, sid ∈ l → is_Some (registry r !! sid)) →
  ∃ r',
    for_each l (λ sid, enable_service populate sid false) r = (Ok tt, r') ∧
    populated r' = true ∧ invariant r' ∧
    registry r' = registry r ∧ logged r' = logged r ∧
    _enabled_services r' = list_to_set l ∪ _enabled_services r ∧
    _default_service_id r' = _default_service_id r.
Proof.
  revert r. induction l as [|sid l IH]; intros r Hp Hi Hl.
  - exists r. split_and!; try done. set_solver.
  - destruct (enable_service_exact r sid false Hp Hi)
      as (r1 & Hrun & Hp1 & Hi1 & Hreg1 & Hlog1 & Hen1 & Hdef1 & _);
      [apply Hl; by left|].
    destruct (IH r1 Hp1 Hi1) as (r2 & Hrun2 & Hp2 & Hi2 & Hreg2 & Hlog2 & Hen2 & Hdef2).
    { intros x Hx. rewrite Hreg1. apply Hl. by right. }
    exists r2. simpl. unfold bind. rewrite Hrun, Hrun2.
    split_and!; try done; try congruence.
    rewrite Hen2, Hen1. set_solver.
Qed.

Lemma set_enabled_services_exact r l :
  populated r = true → invariant r →
  (∀ service, service ∈ l → is_Some (registry r !! avatar_service_id service)) →
  ∃ r',
    set_enabled_services populate l r = (Ok tt, r') ∧
    populated r' = true ∧
    registry r' = registry r ∧ logged r' = logged r ∧
    _enabled_services r' = list_to_set (avatar_service_id <$> l) ∧
    _default_service_id r' =
      match _default_service_id r with
      | Some d =>
          if bool_decide (d ∈ avatar_service_id <$> l) then Some d else None
      | None => None
      end ∧
    siteconfig r' = siteconfig (saved r').
Proof.
  intros Hp Hi Hall. pose proof Hi as [Hk He Hd Hf].
  unfold set_enabled_services, bind at 1.
  rewrite (populate_populated r Hp). unfold bind at 1.
  rewrite (validate_loop _ r Hp).
  destruct (find _ (remove_dups l)) as [bad|] eqn:Hfind.
  { exfalso. apply find_some in Hfind as [Hin Hneg].
    rewrite <- list_elem_of_In, elem_of_remove_dups in Hin.
    apply negb_true_iff in Hneg.
    rewrite (registered_true r _ Hk (Hall _ Hin)) in Hneg. done. }
  unfold bind at 1, gets. unfold bind at 1.
  set (new_ids := list_to_set (avatar_service_id <$> remove_dups l) : gset string).
  assert (new_ids = list_to_set (avatar_service_id <$> l)) as Hnew.
  { unfold new_ids. apply set_eq. intros x.
    rewrite !elem_of_list_to_set, !list_elem_of_fmap.
    by setoid_rewrite elem_of_remove_dups. }
  assert (∀ sid, sid ∈ new_ids → is_Some (registry r !! sid)) as Hnewreg.
  { intros sid. rewrite Hnew, elem_of_list_to_set, list_elem_of_fmap.
    intros (x & -> & Hx). by apply Hall. }
  destruct (disable_loop (elements (_enabled_services r ∖ new_ids)) r Hp Hi)
    as (r1 & -> & Hp1 & Hi1 & Hreg1 & Hlog1 & Hen1 & Hdef1).
  { intros sid Hsid%elem_of_elements. apply He. set_solver. }
  unfold bind at 1.
  destruct (enable_loop (elements (new_ids ∖ _enabled_services r)) r1 Hp1 Hi1)
    as (r2 & -> & Hp2 & Hi2 & Hreg2 & Hlog2 & Hen2 & Hdef2).
  { intros sid Hsid%elem_of_elements. rewrite Hreg1. apply Hnewreg. set_solver. }
  unfold bind at 1, bind at 1.
  rewrite (default_service_invariant r2 Hp2 Hi2).
  assert (_enabled_services r2 = new_ids) as Hen.
  { rewrite Hen2, Hen1. apply set_eq. intros x.
    rewrite elem_of_union, !elem_of_list_to_set, !elem_of_elements,
      !elem_of_difference, elem_of_list_to_set, elem_of_elements,
      elem_of_difference.
    destruct (decide (x ∈ _enabled_services r)), (decide (x ∈ new_ids)); tauto. }
  assert (_default_service_id r2 =
          match _default_service_id r with
          | Some d =>
              if bool_decide (d ∈ avatar_service_id <$> l) then Some d else None
          | None => None
          end) as Hdef.
  { rewrite Hdef2, Hdef1. destruct (_default_service_id r) as [d|] eqn:Hd0; [|done].
    unfold default_is_enabled in Hd. rewrite Hd0 in Hd.
    assert (d ∈ new_ids ↔ d ∈ avatar_service_id <$> l) as Hiff
      by by rewrite Hnew, elem_of_list_to_set.
    repeat case_bool_decide; try done.
    - exfalso. set_solver.
    - exfalso. rewrite elem_of_elements in *. set_solver. }
  assert (
    (match _default_service_id r2 ≫= (λ d, registry r2 !! d) with
     | Some item =>
         bind (is_enabled populate (avatar_service_id item))
           (λ en, when (negb en) (set_default_service populate None true))
     | None => ret tt
     end r2) = (Ok tt, r2)) as ->.
  { destruct (_default_service_id r2) as [d|] eqn:Hd2; [|done]. simpl.
    pose proof (inv_default r2 Hi2) as Hde. unfold default_is_enabled in Hde.
    rewrite Hd2 in Hde. destruct (inv_enabled r2 Hi2 d Hde) as [item Hitem].
    rewrite Hitem. unfold bind.
    rewrite (is_enabled_populated populate populate_populated r2 _ Hp2).
    rewrite (inv_keyed r2 Hi2 _ _ Hitem).
    rewrite (registered_true r2 d); [|apply Hi2|by rewrite Hitem].
    by rewrite bool_decide_eq_true_2. }
  exists (saved r2). split; [done|]. split_and!; simpl; try done; congruence.
Qed.

Lemma collect_registered (l : list string) r :
  populated r = true →
  (∀ sid, sid ∈ l → is_Some (registry r !! sid)) →
  ∃ items,
    collect l (get_avatar_service populate) r = (Ok items, r) ∧
    Forall2 (λ sid item, registry r !! sid = Some item) l items.
Proof.
  intros Hp. induction l as [|sid l IH]; intros Hl.
  - exists []. by split.
  - destruct (Hl sid) as [item Hitem]; [by left|].
    destruct IH as (items & Hrun & Hall); [intros x Hx; apply Hl; by right|].
    exists (item :: items). split; [|by constructor].
    simpl. unfold bind at 1, get_avatar_service at 1.
    rewrite (get_populated populate populate_populated r sid Hp), Hitem.
    unfold bind. by rewrite Hrun.
Qed.

Lemma enabled_services_exact r :
  populated r = true → invariant r →
  ∃ items,
    enabled_services populate r = (Ok items, r) ∧
    Forall2 (λ sid item, registry r !! sid = Some item)
      (elements (_enabled_services r)) items.
Proof.
  intros Hp Hi. unfold enabled_services, bind at 1.
  rewrite (populate_populated r Hp). unfold bind, gets.
  apply collect_registered; [done|].
  intros sid Hsid%elem_of_elements. by apply Hi.
Qed.

Lemma enabled_items_member r items item :
  invariant r →
  Forall2 (λ sid item, registry r !! sid = Some item)
    (elements (_enabled_services r)) items →
  item ∈ items ↔
    avatar_service_id item ∈ _enabled_services r ∧
    registry r !! avatar_service_id item = Some item.
Proof.
  intros Hi Hall. split.
  - intros Hin. apply list_elem_of_lookup in Hin as [n Hn].
    destruct (Forall2_lookup_r _ _ _ _ _ Hall Hn) as (sid & Hsid & Hitem).
    rewrite (inv_keyed r Hi _ _ Hitem). split; [|done].
    apply elem_of_elements. by eapply list_elem_of_lookup_2.
  - intros [Hen Hitem]. apply elem_of_elements, list_elem_of_lookup in Hen as [n Hn].
    destruct (Forall2_lookup_l _ _ _ _ _ Hall Hn) as (item' & Hitem' & Hreg).
    assert (item' = item) as -> by congruence.
    by eapply list_elem_of_lookup_2.
Qed.

(** ** Setting the default service *)

(** X1. [set_default_service] on a registry a process can hold: a service
    object that is not registered raises the lookup error and a registered
    service that is not enabled raises [DisabledServiceError], both leaving
    the registry as population left it; an enabled service becomes the
    default, which [default_service] then returns, with nothing else
    changed and the site configuration untouched when [save] is false;
    [None] clears the default. *)
Theorem set_default_service_outcomes r item sv :
  reachable r →
  let r1 := exec call_populate r in
  let sid := avatar_service_id item in
  (registry r1 !! sid ≠ Some item →
   set_default_service populate (Some item) sv r =
     (Raise (AvatarServiceNotFoundError (format_error UNKNOWN_SERVICE_DEFAULT sid)),
      r1)) ∧
  (registry r1 !! sid = Some item → sid ∉ _enabled_services r1 →
   set_default_service populate (Some item) sv r =
     (Raise (DisabledServiceError (format_error DISABLED_SERVICE_DEFAULT sid)), r1)) ∧
  (registry r1 !! sid = Some item → sid ∈ _enabled_services r1 →
   ∃ r',
     set_default_service populate (Some item) sv r = (Ok tt, r') ∧
     _default_service_id r' = Some sid ∧
     _enabled_services r' = _enabled_services r1 ∧
     registry r' = registry r1 ∧
     (sv = false → siteconfig r' = siteconfig r1) ∧
     (sv = true →
      stored (siteconfig r') =
        {| ENABLED_SERVICES_KEY := Some (elements (_enabled_services r1));
           DEFAULT_SERVICE_KEY := Some sid |}) ∧
     default_service populate r' = (Ok (Some item), r')) ∧
  (∃ r',
     set_default_service populate None sv r = (Ok tt, r') ∧
     _default_service_id r' = None ∧
     _enabled_services r' = _enabled_services r1 ∧
     default_service populate r' = (Ok None, r')).
Proof.
  intros Hr. destruct (populated_start r Hr) as (r1 & Hpop & -> & Hp1 & Hi1).
  simpl. rewrite !(set_default_service_fresh r r1 _ _ Hpop Hp1).
  rewrite (set_default_service_Some populate populate_populated r1 item sv Hp1).
  rewrite (set_default_service_None populate populate_populated r1 sv Hp1).
  split_and!.
  - intros Hne. by rewrite bool_decide_eq_false_2.
  - intros Hreg Hen. rewrite bool_decide_eq_true_2 by done. simpl.
    by rewrite (bool_decide_eq_false_2 _ Hen), andb_false_r.
  - intros Hreg Hen. rewrite bool_decide_eq_true_2 by done. simpl.
    rewrite (registered_true r1); [|apply Hi1|by rewrite Hreg].
    rewrite (bool_decide_eq_true_2 _ Hen). simpl.
    eexists. split; [done|].
    destruct sv; simpl; split_and!; try done.
    all: rewrite (default_service_populated populate populate_populated) by done.
    all: simpl; by rewrite Hreg.
  - eexists. split; [done|].
    destruct sv; simpl; split_and!; try done.
    all: by rewrite (default_service_populated populate populate_populated) by done.
Qed.

Lemma set_default_service_outcomes_witness :
  reachable registry_AB ∧
  ∃ r',
    set_default_service populate (Some service_A) false registry_AB = (Ok tt, r') ∧
    _default_service_id r' = Some "A" ∧
    default_service populate r' = (Ok (Some service_A), r').
Proof.
  split; [apply reachable_registry_AB|].
  destruct (set_default_service_outcomes registry_AB service_A false
              reachable_registry_AB) as (_ & _ & H & _).
  destruct H as (r' & Hrun & Hdef & _ & _ & _ & _ & Hget).
  - vm_compute. reflexivity.
  - apply (bool_decide_unpack _). vm_compute. exact I.
  - exists r'. split; [exact Hrun|]. split; [exact Hdef|exact Hget].
Defined.

(** ** Enabling and disabling *)

(** X2. [enable_service]: an id that is not registered raises the lookup
    error with the registry as population left it; a registered id is
    added to the enabled ids, the default and the catalog stay, the call
    is idempotent, [is_enabled] then answers [True], and with [save] false
    the site configuration is untouched. *)
Theorem enable_service_outcomes r sid sv :
  reachable r →
  let r1 := exec call_populate r in
  (registry r1 !! sid = None →
   enable_service populate sid sv r =
     (Raise (AvatarServiceNotFoundError (format_error UNKNOWN_SERVICE_ENABLED sid)),
      r1)) ∧
  (is_Some (registry r1 !! sid) →
   ∃ r',
     enable_service populate sid sv r = (Ok tt, r') ∧
     _enabled_services r' = {[sid]} ∪ _enabled_services r1 ∧
     _default_service_id r' = _default_service_id r1 ∧
     registry r' = registry r1 ∧
     (sv = false → siteconfig r' = siteconfig r1) ∧
     is_enabled populate sid r' = (Ok true, r') ∧
     ∃ r'',
       enable_service populate sid sv r' = (Ok tt, r'') ∧
       _enabled_services r'' = _enabled_services r' ∧
       _default_service_id r'' = _default_service_id r').
Proof.
  intros Hr. destruct (populated_start r Hr) as (r1 & Hpop & -> & Hp1 & Hi1).
  simpl. rewrite (enable_service_fresh r r1 Hpop Hp1). split.
  - intros Hnone.
    rewrite (enable_service_populated populate populate_populated r1 sid sv Hp1).
    unfold registered. by rewrite Hnone.
  - intros Hreg.
    destruct (enable_service_exact r1 sid sv Hp1 Hi1 Hreg)
      as (r' & Hrun & Hp' & Hi' & Hreg' & _ & Hen' & Hdef' & Hsc').
    exists r'. split_and!; try done.
    + rewrite (is_enabled_populated populate populate_populated r' sid Hp').
      rewrite (registered_true r' sid); [|apply Hi'|by rewrite Hreg'].
      rewrite bool_decide_eq_true_2; [done|]. rewrite Hen'. set_solver.
    + destruct (enable_service_exact r' sid sv Hp' Hi')
        as (r'' & Hrun' & _ & _ & _ & _ & Hen'' & Hdef'' & _);
        [by rewrite Hreg'|].
      exists r''. split_and!; try done. rewrite Hen'', Hen'. set_solver.
Qed.

Lemma enable_service_outcomes_witness :
  reachable registry_AB ∧
  is_Some (registry (exec call_populate registry_AB) !! "B") ∧
  ∃ r',
    enable_service populate "B" false registry_AB = (Ok tt, r') ∧
    _enabled_services r' =
      {["B"]} ∪ _enabled_services (exec call_populate registry_AB) ∧
    is_enabled populate "B" r' = (Ok true, r').
Proof.
  split; [apply reachable_registry_AB|].
  assert (is_Some (registry (exec call_populate registry_AB) !! "B")) as HB.
  { exists service_B. vm_compute. reflexivity. }
  split; [exact HB|].
  destruct (enable_service_outcomes registry_AB "B" false reachable_registry_AB)
    as [_ H].
  destruct (H HB) as (r' & Hrun & Hen & _ & _ & _ & His & _).
  exists r'. split; [exact Hrun|]. split; [exact Hen|exact His].
Defined.

(** X3. [disable_service]: an id that is not registered raises the lookup
    error with the registry as population left it; a registered id leaves
    the enabled ids, the default is cleared exactly when it was this id,
    and the catalog and the log stay.  Disabling a service that is already
    disabled changes neither the enabled ids nor the default, and with
    [save] false and another default the site configuration is untouched. *)
Theorem disable_service_outcomes r sid sv :
  reachable r →
  let r1 := exec call_populate r in
  (registry r1 !! sid = None →
   disable_service populate sid sv r =
     (Raise (AvatarServiceNotFoundError (format_error UNKNOWN_SERVICE_DISABLED sid)),
      r1)) ∧
  (is_Some (registry r1 !! sid) →
   ∃ r',
     disable_service populate sid sv r = (Ok tt, r') ∧
     _enabled_services r' = _enabled_services r1 ∖ {[sid]} ∧
     _default_service_id r' =
       (if bool_decide (_default_service_id r1 = Some sid) then None
        else _default_service_id r1) ∧
     registry r' = registry r1 ∧ logged r' = logged r1 ∧
     (sid ∉ _enabled_services r1 →
      _enabled_services r' = _enabled_services r1 ∧
      _default_service_id r' = _default_service_id r1) ∧
     (sv = false → _default_service_id r1 ≠ Some sid →
      siteconfig r' = siteconfig r1) ∧
     is_enabled populate sid r' = (Ok false, r')).
Proof.
  intros Hr. destruct (populated_start r Hr) as (r1 & Hpop & -> & Hp1 & Hi1).
  simpl. rewrite (disable_service_fresh r r1 Hpop Hp1). split.
  - intros Hnone.
    rewrite (disable_service_populated populate populate_populated r1 sid sv Hp1).
    unfold registered. by rewrite Hnone.
  - intros Hreg.
    destruct (disable_service_exact r1 sid sv Hp1 Hi1 Hreg)
      as (r' & Hrun & Hp' & Hi' & Hreg' & Hlog' & Hen' & Hdef' & Hsc').
    exists r'. split_and!; try done.
    + intros Hnot. split; [rewrite Hen'; set_solver|].
      rewrite Hdef'. rewrite bool_decide_eq_false_2; [done|].
      intros Hd. pose proof (inv_default r1 Hi1) as Hde.
      unfold default_is_enabled in Hde. by rewrite Hd in Hde.
    + rewrite (is_enabled_populated populate populate_populated r' sid Hp').
      rewrite bool_decide_eq_false_2, andb_false_r; [done|].
      rewrite Hen'. set_solver.
Qed.

Lemma disable_service_outcomes_witness :
  reachable registry_AB ∧
  is_Some (registry (exec call_populate registry_AB) !! "A") ∧
  ∃ r',
    disable_service populate "A" true registry_AB = (Ok tt, r') ∧
    _enabled_services r' =
      _enabled_services (exec call_populate registry_AB) ∖ {["A"]} ∧
    is_enabled populate "A" r' = (Ok false, r').
Proof.
  split; [apply reachable_registry_AB|].
  assert (is_Some (registry (exec call_populate registry_AB) !! "A")) as HA.
  { exists service_A. vm_compute. reflexivity. }
  split; [exact HA|].
  destruct (disable_service_outcomes registry_AB "A" true reachable_registry_AB)
    as [_ H].
  destruct (H HA) as (r' & Hrun & Hen & _ & _ & _ & _ & _ & His).
  exists r'. split; [exact Hrun|]. split; [exact Hen|exact His].
Defined.

(** ** Unregistering *)

(** X4. [unregister] of a registered service object returns; the service
    is gone from the catalog and from the enabled ids, the default is
    cleared exactly when it was this service, every other service stays
    registered, and [has_service] then answers [False] for its id. *)
Theorem unregister_registered r item :
  reachable r →
  let r1 := exec call_populate r in
  let sid := avatar_service_id item in
  registry r1 !! sid = Some item →
  ∃ r',
    unregister populate item r = (Ok tt, r') ∧
    registry r' = delete sid (registry r1) ∧
    _enabled_services r' = _enabled_services r1 ∖ {[sid]} ∧
    _default_service_id r' =
      (if bool_decide (_default_service_id r1 = Some sid) then None
       else _default_service_id r1) ∧
    has_service populate sid r' = (Ok false, r').
Proof.
  intros Hr. destruct (populated_start r Hr) as (r1 & Hpop & -> & Hp1 & Hi1).
  simpl. intros Hitem. rewrite (unregister_fresh r r1 Hpop Hp1).
  destruct (disable_service_exact r1 (avatar_service_id item) true Hp1 Hi1)
    as (r2 & Hrun & Hp2 & Hi2 & Hreg2 & _ & Hen2 & Hdef2 & _); [by rewrite Hitem|].
  unfold unregister, bind at 1. rewrite Hrun.
  unfold base_unregister, bind at 1. rewrite (populate_populated r2 Hp2).
  unfold bind, gets. rewrite Hreg2. rewrite bool_decide_eq_true_2 by done.
  eexists. split; [done|]. simpl. split_and!; try done.
  rewrite has_service_populated; [|apply populate_populated|done].
  unfold registered. simpl. by rewrite lookup_delete_eq.
Qed.

Lemma unregister_registered_witness :
  reachable registry_AB ∧
  registry (exec call_populate registry_AB) !! avatar_service_id service_A =
    Some service_A ∧
  ∃ r',
    unregister populate service_A registry_AB = (Ok tt, r') ∧
    registry r' =
      delete (avatar_service_id service_A)
        (registry (exec call_populate registry_AB)) ∧
    has_service populate (avatar_service_id service_A) r' = (Ok false, r').
Proof.
  split; [apply reachable_registry_AB|].
  assert (registry (exec call_populate registry_AB) !! avatar_service_id service_A =
          Some service_A) as HA by (vm_compute; reflexivity).
  split; [exact HA|].
  destruct (unregister_registered registry_AB service_A reachable_registry_AB HA)
    as (r' & Hrun & Hreg & _ & _ & Hhas).
  exists r'. split; [exact Hrun|]. split; [exact Hreg|exact Hhas].
Defined.

(** ** The enabled services as a whole *)

(** X5. The [enabled_services] setter with registered services only: it
    returns, the enabled ids are exactly the ids of the given services,
    the default is kept when its service is among them and cleared
    otherwise, the catalog and the log stay, and the state is saved. *)
Theorem set_enabled_services_replaces r services :
  reachable r →
  let r1 := exec call_populate r in
  (∀ service, service ∈ services →
              is_Some (registry r1 !! avatar_service_id service)) →
  ∃ r',
    set_enabled_services populate services r = (Ok tt, r') ∧
    _enabled_services r' = list_to_set (avatar_service_id <$> services) ∧
    _default_service_id r' =
      match _default_service_id r1 with
      | Some d =>
          if bool_decide (d ∈ avatar_service_id <$> services) then Some d else None
      | None => None
      end ∧
    registry r' = registry r1 ∧ logged r' = logged r1 ∧
    stored (siteconfig r') =
      {| ENABLED_SERVICES_KEY := Some (elements (_enabled_services r'));
         DEFAULT_SERVICE_KEY := _default_service_id r' |}.
Proof.
  intros Hr. destruct (populated_start r Hr) as (r1 & Hpop & -> & Hp1 & Hi1).
  simpl. intros Hall. rewrite (set_enabled_services_fresh r r1 _ Hpop Hp1).
  destruct (set_enabled_services_exact r1 services Hp1 Hi1 Hall)
    as (r' & Hrun & _ & Hreg & Hlog & Hen & Hdef & Hsc).
  exists r'. split_and!; try done. by rewrite Hsc.
Qed.

Lemma set_enabled_services_replaces_witness :
  reachable registry_AB ∧
  (∀ service, service ∈ [service_B] →
     is_Some (registry (exec call_populate registry_AB) !! avatar_service_id service)) ∧
  ∃ r',
    set_enabled_services populate [service_B] registry_AB = (Ok tt, r') ∧
    _enabled_services r' = list_to_set (avatar_service_id <$> [service_B]) ∧
    _default_service_id r' = None.
Proof.
  split; [apply reachable_registry_AB|].
  assert (∀ service, service ∈ [service_B] →
            is_Some (registry (exec call_populate registry_AB)
                       !! avatar_service_id service)) as HB.
  { intros service Hin. apply list_elem_of_In in Hin. simpl in Hin.
    destruct Hin as [<-|[]]. exists service_B. vm_compute. reflexivity. }
  split; [exact HB|].
  destruct (set_enabled_services_replaces registry_AB [service_B]
              reachable_registry_AB HB) as (r' & Hrun & Hen & Hdef & _).
  exists r'. split; [exact Hrun|]. split; [exact Hen|].
  rewrite Hdef. vm_compute. reflexivity.
Defined.

(** X6. The [enabled_services] and [configurable_services] properties on
    a registry a process can hold never raise: the first returns one
    service for each enabled id, namely the registered service of that id,
    and the second those of them that are configurable. *)
Theorem enabled_services_lists r :
  reachable r →
  let r1 := exec call_populate r in
  ∃ items,
    enabled_services populate r = (Ok items, r1) ∧
    length items = size (_enabled_services r1) ∧
    (∀ item, item ∈ items ↔
             avatar_service_id item ∈ _enabled_services r1 ∧
             registry r1 !! avatar_service_id item = Some item) ∧
    ∃ configurable,
      configurable_services populate r = (Ok configurable, r1) ∧
      ∀ item, item ∈ configurable ↔ item ∈ items ∧ is_configurable item = true.
Proof.
  intros Hr. destruct (populated_start r Hr) as (r1 & Hpop & -> & Hp1 & Hi1).
  simpl. rewrite (enabled_services_fresh r r1 Hpop Hp1).
  rewrite (configurable_services_fresh r r1 Hpop Hp1).
  destruct (enabled_services_exact r1 Hp1 Hi1) as (items & Hrun & Hall).
  exists items. split; [done|]. split_and!.
  - rewrite <- (Forall2_length _ _ _ Hall). done.
  - intros item. by apply enabled_items_member.
  - eexists. unfold configurable_services, bind at 1.
    rewrite (populate_populated r1 Hp1). unfold bind. rewrite Hrun.
    split; [done|]. intros item. rewrite list_elem_of_filter. tauto.
Qed.

Lemma enabled_services_lists_witness :
  reachable registry_AB ∧
  ∃ items,
    enabled_services populate registry_AB =
      (Ok items, exec call_populate registry_AB) ∧
    length items = size (_enabled_services (exec call_populate registry_AB)).
Proof.
  split; [apply reachable_registry_AB|].
  destruct (enabled_services_lists registry_AB reachable_registry_AB)
    as (items & Hrun & Hlen & _).
  exists items. split; [exact Hrun|exact Hlen].
Defined.

(** X7. [has_service] and [is_enabled] on a registry a process can hold
    never raise: [has_service] tells whether the id is in the catalog and
    [is_enabled] whether it is among the enabled ids, so an id that is
    enabled is registered. *)
Theorem membership_tests r sid :
  reachable r →
  let r1 := exec call_populate r in
  has_service populate sid r = (Ok (bool_decide (is_Some (registry r1 !! sid))), r1) ∧
  is_enabled populate sid r = (Ok (bool_decide (sid ∈ _enabled_services r1)), r1) ∧
  (sid ∈ _enabled_services r1 → is_Some (registry r1 !! sid)).
Proof.
  intros Hr. destruct (populated_start r Hr) as (r1 & Hpop & -> & Hp1 & Hi1).
  simpl. rewrite (has_service_fresh r r1 Hpop Hp1), (is_enabled_fresh r r1 Hpop Hp1).
  rewrite (has_service_populated populate populate_populated r1 sid Hp1).
  rewrite (is_enabled_populated populate populate_populated r1 sid Hp1).
  rewrite (registered_keyed r1 sid) by apply Hi1.
  split; [done|]. split; [|apply Hi1].
  destruct (decide (sid ∈ _enabled_services r1)) as [Hen|Hen].
  - rewrite (bool_decide_eq_true_2 _ Hen).
    by rewrite bool_decide_eq_true_2 by by apply Hi1.
  - by rewrite (bool_decide_eq_false_2 _ Hen), andb_false_r.
Qed.

Lemma membership_tests_witness :
  reachable registry_AB ∧
  is_enabled populate "B" registry_AB =
    (Ok (bool_decide ("B" ∈ _enabled_services (exec call_populate registry_AB))),
     exec call_populate registry_AB).
Proof.
  split; [apply reachable_registry_AB|].
  apply (membership_tests registry_AB "B" reachable_registry_AB).
Defined.

(** ** Saving and starting again *)

Lemma populate_init_effect c :
  ∃ r',
    populate (init c) = (Ok tt, r') ∧
    registry r' = {["gravatar" := GravatarService]} ∧
    (∀ sid, sid ∈ _enabled_services r' ↔
            sid ∈ default [] (ENABLED_SERVICES_KEY (settings c)) ∧
            is_Some (registry r' !! sid)) ∧
    _default_service_id r' =
      match DEFAULT_SERVICE_KEY (settings c) with
      | Some sid =>
          if bool_decide (sid ∈ _enabled_services r') then Some sid else None
      | None => None
      end.
Proof.
  eexists. split; [apply populate_init|].
  set (ids := default [] (ENABLED_SERVICES_KEY (settings c))).
  set (d := DEFAULT_SERVICE_KEY (settings c)).
  set (r0 := set_registry _ _).
  assert (populated r0 = true) as Hp0 by done.
  assert (invariant r0) as Hi0.
  { apply invariant_populated; try done.
    intros k item. simpl. by intros [<- <-]%lookup_singleton_Some. }
  assert (invariant (load_enabled ids r0)) as Hi2 by by apply load_enabled_invariant.
  destruct (load_default_effect d (load_enabled ids r0) Hi2)
    as (Hreg & Hen & Hdef & _); [by rewrite load_enabled_default|].
  rewrite load_enabled_registry in Hreg.
  change (registry (saved ?x)) with (registry x).
  change (_enabled_services (saved ?x)) with (_enabled_services x).
  change (_default_service_id (saved ?x)) with (_default_service_id x).
  rewrite Hreg, Hen, Hdef. split_and!; try done.
  intros sid. rewrite load_enabled_enabled.
  rewrite (registered_keyed r0 sid) by by destruct Hi0.
  rewrite bool_decide_eq_true. set_solver.
Qed.

(** X8. Saving and starting again: a new registry populated from the
    site configuration that [save] wrote registers the default services
    again, enables exactly the saved ids that are registered again and
    takes the saved default when its service is registered again.  When
    every enabled service is among the defaults, the enabled ids and the
    default come back as they were. *)
Theorem save_then_restart r :
  reachable r →
  ∃ r',
    populate (init (siteconfig (saved r))) = (Ok tt, r') ∧
    registry r' = {["gravatar" := GravatarService]} ∧
    (∀ sid, sid ∈ _enabled_services r' ↔
            sid ∈ _enabled_services r ∧ is_Some (registry r' !! sid)) ∧
    _default_service_id r' =
      match _default_service_id r with
      | Some d => if bool_decide (is_Some (registry r' !! d)) then Some d else None
      | None => None
      end ∧
    ((∀ sid, sid ∈ _enabled_services r → is_Some (registry r' !! sid)) →
     _enabled_services r' = _enabled_services r ∧
     _default_service_id r' = _default_service_id r).
Proof.
  intros Hr%reachable_invariant.
  destruct (populate_init_effect (siteconfig (saved r)))
    as (r' & Hrun & Hreg & Hen & Hdef).
  simpl in Hen, Hdef. setoid_rewrite elem_of_elements in Hen.
  exists r'. split; [done|]. split; [done|]. split; [done|].
  assert (_default_service_id r' =
          match _default_service_id r with
          | Some d =>
              if bool_decide (is_Some (registry r' !! d)) then Some d else None
          | None => None
          end) as Hdef'.
  { rewrite Hdef. destruct (_default_service_id r) as [d|] eqn:Hd; [|done].
    pose proof (inv_default r Hr) as Hde. unfold default_is_enabled in Hde.
    rewrite Hd in Hde.
    destruct (decide (is_Some (registry r' !! d))) as [Hs|Hs].
    - rewrite !bool_decide_eq_true_2; [done|done|]. by apply Hen.
    - rewrite !bool_decide_eq_false_2; [done|done|]. rewrite Hen. tauto. }
  split; [done|]. intros Hall. split.
  - apply set_eq. intros sid. rewrite Hen. split; [tauto|]. intros ?. split; auto.
  - rewrite Hdef'. destruct (_default_service_id r) as [d|] eqn:Hd; [|done].
    rewrite bool_decide_eq_true_2; [done|]. apply Hall.
    pose proof (inv_default r Hr) as Hde. unfold default_is_enabled in Hde.
    by rewrite Hd in Hde.
Qed.

Lemma save_then_restart_witness :
  reachable registry_AB ∧
  ∃ r',
    populate (init (siteconfig (saved registry_AB))) = (Ok tt, r') ∧
    _default_service_id r' = None.
Proof.
  split; [apply reachable_registry_AB|].
  destruct (save_then_restart registry_AB reachable_registry_AB)
    as (r' & Hrun & Hreg & _ & Hdef & _).
  exists r'. split; [exact Hrun|]. rewrite Hdef, Hreg. vm_compute. reflexivity.
Defined.

End AvatarsMore.

(** * More of the counter field *)

Module CounterMore.
Import Counter CounterFacts.

(** ** Reloading *)

Lemma reload_attrs_lookup (row : Row) (names : list string) (a : gmap string PyValue) c :
  foldl (λ a name, <[name := from_db (row !! name)]> a) a names !! c =
    if bool_decide (c ∈ names) then Some (from_db (row !! c)) else a !! c.
Proof.
  revert a. induction names as [|name names IH]; intros a; simpl.
  - done.
  - rewrite IH. destruct (decide (c ∈ names)) as [Hin|Hin].
    + rewrite !bool_decide_eq_true_2; [done| |done]. by right.
    + rewrite (bool_decide_eq_false_2 _ Hin).
      destruct (decide (c = name)) as [->|Hne].
      * rewrite lookup_insert_eq. rewrite bool_decide_eq_true_2; [done|]. by left.
      * rewrite lookup_insert_ne by done.
        rewrite bool_decide_eq_false_2; [done|].
        intros [?|?]%elem_of_cons; congruence.
Qed.

Lemma reload_loop i (row : Row) (names : list string) inst w :
  objects w !! i = Some inst →
  for_each names (λ name, setattr i name (from_db (row !! name))) w =
    (Ok tt,
     match names with
     | [] => w
     | _ =>
         set_objects
           (<[i := {| pk := pk inst;
                      attrs := foldl (λ a name, <[name := from_db (row !! name)]> a)
                                 (attrs inst) names |}]> (objects w)) w
     end).
Proof.
  revert inst w. induction names as [|name names IH]; intros inst w Hi; [done|].
  simpl. unfold bind. rewrite (setattr_run i inst _ _ w Hi).
  set (inst' := {| pk := pk inst; attrs := _ |}).
  set (w1 := set_objects _ w).
  rewrite (IH inst' w1) by apply lookup_insert_eq.
  f_equal. destruct names as [|name' names]; [done|].
  unfold w1, set_objects. simpl. by rewrite insert_insert_eq.
Qed.

Lemma _reload_model_instance_run i inst k (row : Row) names w :
  objects w !! i = Some inst → pk inst = Some k → table w !! k = Some row →
  names ≠ [] →
  _reload_model_instance i names w =
    (Ok tt,
     {| objects :=
          <[i := {| pk := pk inst;
                    attrs := foldl (λ a name, <[name := from_db (row !! name)]> a)
                               (attrs inst) names |}]> (objects w);
        table := table w;
        _locks := _locks w;
        events := events w ++ [ValuesQuery (Some k) names] |}).
Proof.
  intros Hi Hk Hrow Hne. unfold _reload_model_instance, bind at 1.
  rewrite (deref_run i inst w Hi). unfold bind at 1. rewrite emit_run.
  unfold bind at 1, gets. simpl. rewrite Hk. simpl. rewrite Hrow.
  rewrite (reload_loop i row names inst) by exact Hi.
  destruct names; [done|]. unfold set_objects. simpl. by rewrite Hk.
Qed.


Lemma _reload_model_instance_fail i inst names w :
  objects w !! i = Some inst → pk inst ≫= (λ k, table w !! k) = None →
  _reload_model_instance i names w =
    (Raise IndexError,
     {| objects := objects w;
        table := table w;
        _locks := _locks w;
        events := events w ++ [ValuesQuery (pk inst) names] |}).
Proof.
  intros Hi Hnone. unfold _reload_model_instance, bind at 1.
  rewrite (deref_run i inst w Hi). unfold bind at 1. rewrite emit_run.
  unfold bind at 1, gets. simpl. by rewrite Hnone.
Qed.




(** ** The cases of [_reinit] *)

(** X10. An initializer function that returns [None] leaves the counter
    as it is: reinit returns, and from the point the initializer has
    returned nothing changes but the lock, which is released; no object,
    no row and no event is touched. *)
Theorem reinit_initializer_none depth self f w i inst w2 :
  _initializer self = Some (InitCallable f) →
  objects w !! i = Some inst →
  call_initializer self (post_init_at depth self) f i (lock i w) = (Ok PyNone, w2) →
  ∃ w',
    reinit depth self i w = (Ok tt, w') ∧
    objects w' = objects w2 ∧ table w' = table w2 ∧ events w' = events w2 ∧
    _locks w' = delete i (_locks w2) ∧
    attribute w' i (attname self) = Some (getattr inst (attname self)).
Proof.
  intros Hinit Hi Hcall. unfold reinit.
  rewrite (_reinit_callable_run self _ f i inst w Hinit Hi), Hcall.
  destruct (call_initializer_frame self _ f i inst w _ _
              (keeps_post_init_at i depth self) Hi Hcall) as (Ho2 & Hl2 & _).
  rewrite Hl2. simpl. eexists. split; [done|]. simpl. split_and!; try done.
  unfold attribute. simpl. by rewrite Ho2.
Qed.

Lemma reinit_initializer_none_witness :
  ∃ w',
    reinit 1 {| attname := "n"; _initializer := Some (InitCallable (λ _ _, Return PyNone)) |}
      3 two_writers = (Ok tt, w') ∧
    objects w' = objects two_writers ∧ table w' = table two_writers.
Proof.
  destruct (reinit_initializer_none 1
              {| attname := "n";
                 _initializer := Some (InitCallable (λ _ _, Return PyNone)) |}
              (λ _ _, Return PyNone) two_writers 3 {| pk := None; attrs := ∅ |}
              {| objects := objects two_writers; table := table two_writers;
                 _locks := <[3%nat := 1%nat]> (_locks two_writers);
                 events := events two_writers ++ [InitializerCall 3] |})
    as (w' & Hrun & Hobj & Htab & _).
  - reflexivity.
  - vm_compute. reflexivity.
  - vm_compute. reflexivity.
  - exists w'. split; [exact Hrun|]. split; [exact Hobj|exact Htab].
Defined.

(** X11. An initializer that is a query expression, on an instance with
    a primary key and a stored row: reinit sends one update that sets the
    column to the expression and then one read of the column; the row
    holds the value of the expression over the row as it was, and the
    attribute holds what was read. *)
Theorem reinit_expression_updates depth self e w i inst k row :
  _initializer self = Some (InitExpression e) →
  objects w !! i = Some inst →
  pk inst = Some k → k ≠ 0%Z → table w !! k = Some row →
  ∃ w',
    reinit depth self i w = (Ok tt, w') ∧
    events w' = events w ++
      [UpdateQuery (Some k) (attname self) e; ValuesQuery (Some k) [attname self]] ∧
    stored_value w' k (attname self) = eval row e ∧
    attribute w' i (attname self) = Some (from_db (eval row e)).
Proof.
  intros Hinit Hi Hk Hn Hrow. unfold reinit, _reinit, bind at 1.
  rewrite (deref_run i inst w Hi), Hinit, orb_true_r. simpl.
  unfold bind at 1. simpl. unfold bind at 1. rewrite (deref_run i inst w Hi).
  rewrite (pk_truthy_Some inst k Hk Hn). simpl. rewrite Hk.
  unfold bind at 1. rewrite queryset_update_run.
  set (w1 := {| objects := _; table := _; _locks := _; events := _ |}).
  assert (table w1 !! k = Some (assign (attname self) (eval row e) row)) as Hrow1.
  { unfold w1. simpl. by rewrite lookup_alter_eq, Hrow. }
  change (_reload_model_instance i [attname self]) with (_reload self i).
  rewrite (_reload_run self i inst k _ w1 Hi Hk Hrow1).
  assert (assign (attname self) (eval row e) row !! attname self = eval row e) as Hv.
  { unfold assign. destruct (eval row e).
    - by rewrite lookup_insert_eq.
    - by rewrite lookup_delete_eq. }
  eexists. split; [done|]. split_and!.
  - simpl. by rewrite <- app_assoc.
  - unfold stored_value. simpl. rewrite lookup_alter_eq, Hrow. simpl. exact Hv.
  - unfold attribute, getattr. simpl. rewrite lookup_insert_eq. simpl.
    by rewrite lookup_insert_eq, Hv.
Qed.

Lemma reinit_expression_updates_witness :
  ∃ w',
    reinit 1 {| attname := "m"; _initializer := Some (InitExpression (expr_add (F "n") 1)) |}
      1 two_writers = (Ok tt, w') ∧
    stored_value w' 7 "m" = Some 11%Z ∧
    attribute w' 1 "m" = Some (PyInt 11).
Proof.
  destruct (reinit_expression_updates 1
              {| attname := "m";
                 _initializer := Some (InitExpression (expr_add (F "n") 1)) |}
              (expr_add (F "n") 1) two_writers 1
              {| pk := Some 7%Z; attrs := {[ "n" := PyInt 10 ]} |} 7
              {[ "n" := 10%Z ]})
    as (w' & Hrun & _ & Hst & Hat).
  - reflexivity.
  - vm_compute. reflexivity.
  - reflexivity.
  - lia.
  - vm_compute. reflexivity.
  - exists w'. split; [exact Hrun|]. split; [exact Hst|exact Hat].
Defined.

(** X12. An initializer function that returns an integer, on an instance
    with a primary key and a stored row: reinit sets the attribute to the
    integer and saves that one field, so the row holds the integer; the
    save is the only thing sent after the initializer has returned. *)
Theorem reinit_integer_saved depth self f w i inst z w2 k row :
  _initializer self = Some (InitCallable f) →
  objects w !! i = Some inst →
  call_initializer self (post_init_at depth self) f i (lock i w) = (Ok (PyInt z), w2) →
  pk inst = Some k → k ≠ 0%Z → table w2 !! k = Some row →
  ∃ w',
    reinit depth self i w = (Ok tt, w') ∧
    attribute w' i (attname self) = Some (PyInt z) ∧
    events w' = events w2 ++ [SaveQuery (Some k) [(attname self, PyInt z)]] ∧
    stored_value w' k (attname self) = Some z.
Proof.
  intros Hinit Hi Hcall Hk Hn Hrow. unfold reinit.
  rewrite (_reinit_callable_run self _ f i inst w Hinit Hi), Hcall.
  destruct (call_initializer_frame self _ f i inst w _ _
              (keeps_post_init_at i depth self) Hi Hcall) as (Ho2 & Hl2 & _).
  rewrite Hl2. lazy zeta. change (is_None (PyInt z)) with false. lazy iota.
  set (w3 := set_locks _ w2).
  assert (objects w3 !! i = Some inst) as Hi3 by done.
  unfold bind at 1. rewrite (deref_run i inst w3 Hi3). simpl.
  unfold bind at 1. rewrite (setattr_run i inst _ _ w3 Hi3).
  set (inst' := {| pk := pk inst; attrs := _ |}).
  set (w4 := set_objects _ w3).
  assert (objects w4 !! i = Some inst') as Hi4 by apply lookup_insert_eq.
  unfold bind at 1. rewrite (deref_run i inst' w4 Hi4).
  assert (pk_truthy inst' = true) as -> by by apply (pk_truthy_Some inst' k).
  simpl. rewrite (save_counter_run self i inst' w4 Hi4). simpl.
  rewrite Hk. simpl. rewrite Hrow.
  assert (getattr inst' (attname self) = PyInt z) as ->.
  { unfold getattr, inst'. simpl. by rewrite lookup_insert_eq. }
  eexists. split; [done|]. simpl. split_and!; try done.
  - unfold attribute. simpl. rewrite lookup_insert_eq. simpl.
    unfold getattr. simpl. by rewrite lookup_insert_eq.
  - unfold stored_value. simpl. rewrite lookup_insert_eq. simpl.
    by rewrite lookup_insert_eq.
Qed.

Lemma reinit_integer_saved_witness :
  ∃ w',
    reinit 1 {| attname := "m"; _initializer := Some (InitCallable (λ _ _, Return (PyInt 4))) |}
      1 two_writers = (Ok tt, w') ∧
    attribute w' 1 "m" = Some (PyInt 4) ∧
    stored_value w' 7 "m" = Some 4%Z.
Proof.
  destruct (reinit_integer_saved 1
              {| attname := "m";
                 _initializer := Some (InitCallable (λ _ _, Return (PyInt 4))) |}
              (λ _ _, Return (PyInt 4)) two_writers 1
              {| pk := Some 7%Z; attrs := {[ "n" := PyInt 10 ]} |} 4
              {| objects := objects two_writers; table := table two_writers;
                 _locks := <[1%nat := 1%nat]> (_locks two_writers);
                 events := events two_writers ++ [InitializerCall 1] |}
              7 {[ "n" := 10%Z ]})
    as (w' & Hrun & Hat & _ & Hst).
  - reflexivity.
  - vm_compute. reflexivity.
  - vm_compute. reflexivity.
  - reflexivity.
  - lia.
  - vm_compute. reflexivity.
  - exists w'. split; [exact Hrun|]. split; [exact Hat|exact Hst].
Defined.

(** ** When [post_init] does nothing *)

(** X13. The [post_init] receiver leaves everything as it is when no
    instance comes with the signal, when the counter of the instance is
    already set, and when the counter is unset but the field has no
    initializer and the instance has no primary key: lazy initialization
    starts only for an unset counter that has something to compute or an
    instance that is saved. *)
Theorem post_init_leaves_alone d self w :
  post_init_at (S d) self None w = (Ok tt, w) ∧
  (∀ i inst,
     objects w !! i = Some inst → getattr inst (attname self) ≠ PyNone →
     post_init_at (S d) self (Some i) w = (Ok tt, w)) ∧
  (∀ i inst,
     objects w !! i = Some inst → _initializer self = None →
     pk_truthy inst = false →
     post_init_at (S d) self (Some i) w = (Ok tt, w)).
Proof.
  split; [done|]. split.
  - intros i inst Hi Hv. simpl. unfold _post_init, bind, gets. simpl.
    case_bool_decide; simpl; [|done].
    unfold _do_post_init, bind. rewrite (deref_run i inst w Hi).
    by destruct (getattr inst (attname self)).
  - intros i inst Hi Hinit Hpk. simpl. unfold _post_init, bind at 1, gets. simpl.
    case_bool_decide; simpl; [|done].
    unfold _do_post_init, bind at 1. rewrite (deref_run i inst w Hi).
    destruct (is_None _); simpl; [|done].
    unfold _reinit, bind at 1. by rewrite (deref_run i inst w Hi), Hinit, Hpk.
Qed.

Lemma post_init_leaves_alone_witness :
  post_init_at 1 counter_n (Some 1%nat) two_writers = (Ok tt, two_writers) ∧
  post_init_at 1 counter_n (Some 3%nat) two_writers = (Ok tt, two_writers).
Proof.
  destruct (post_init_leaves_alone 0 counter_n two_writers) as (_ & Hset & Hunsaved).
  split.
  - apply (Hset 1%nat {| pk := Some 7%Z; attrs := {[ "n" := PyInt 10 ]} |}).
    + vm_compute. reflexivity.
    + intros H. vm_compute in H. discriminate H.
  - apply (Hunsaved 3%nat {| pk := None; attrs := ∅ |}).
    + vm_compute. reflexivity.
    + reflexivity.
    + reflexivity.
Defined.

(** ** What a save of the model writes *)

Lemma assign_other (column c : string) v (row : Row) :
  c ≠ column → assign column v row !! c = row !! c.
Proof.
  intros Hne. unfold assign. destruct v.
  - by rewrite lookup_insert_ne.
  - by rewrite lookup_delete_ne.
Qed.

Lemma saved_row_other (row0 row : Row) (values : list (FieldRef * PyValue)) c :
  (∀ f v, (f, v) ∈ values → field_attname f ≠ c) →
  foldr (λ value acc, assign (field_attname value.1) (to_db row0 value.2) acc)
        row values !! c = row !! c.
Proof.
  induction values as [|[f v] values IH]; intros Hall; simpl; [done|].
  rewrite assign_other.
  - apply IH. intros f' v' Hin. apply (Hall f' v'). by right.
  - intros Heq. apply (Hall f v); [by left|done].
Qed.

(** X14. [_model_do_update], through which every save of the model goes:
    a counter field whose value is not [None] and which is not named in
    [update_fields] is left out of the statement and its stored value
    stays, whatever the instance holds in memory; every other field, a
    counter that is reset to [None] and a counter named in
    [update_fields] are written.  No object in memory changes. *)
Theorem update_skips_counters pk_val values update_fields w :
  ∃ kept updated w',
    _model_do_update pk_val values update_fields w = (Ok updated, w') ∧
    events w' = events w ++ [SaveQuery pk_val kept] ∧
    objects w' = objects w ∧
    (∀ f v, (f, v) ∈ values →
       is_CounterField f = false ∨ v = PyNone ∨
       field_attname f ∈ default [] update_fields →
       (field_attname f, v) ∈ kept) ∧
    (∀ c,
       (∀ f v, (f, v) ∈ values → field_attname f = c →
               is_CounterField f = true ∧ v ≠ PyNone ∧
               c ∉ default [] update_fields) →
       (∀ v, (c, v) ∉ kept) ∧
       ∀ k, stored_value w' k c = stored_value w k c).
Proof.
  unfold _model_do_update.
  set (P := λ value : FieldRef * PyValue,
         negb (is_CounterField value.1) = true
         ∨ is_None value.2 = true
         ∨ (update_fields ≠ None ∧ update_fields ≠ Some []
            ∧ field_attname value.1 ∈ default [] update_fields)).
  assert (∀ f v c, (f, v) ∈ filter P values → field_attname f = c →
            (∀ f v, (f, v) ∈ values → field_attname f = c →
                    is_CounterField f = true ∧ v ≠ PyNone ∧
                    c ∉ default [] update_fields) → False) as Hskip.
  { intros f v c [HP Hin]%list_elem_of_filter Hc Hall.
    destruct (Hall f v Hin Hc) as (Hcf & Hv & Hnot).
    destruct HP as [HP|[HP|(_ & _ & HP)]]; simpl in HP.
    - by rewrite Hcf in HP.
    - by destruct v.
    - by rewrite Hc in HP. }
  exists (prod_map field_attname id <$> filter P values).
  unfold base_do_update, bind at 1. rewrite emit_run.
  unfold bind at 1, gets. simpl.
  destruct (pk_val ≫= _) as [row|] eqn:Hrow; simpl.
  - eexists _, _. split; [done|]. simpl. split_and!; try done.
    + intros f v Hin Hor. apply list_elem_of_fmap. exists (f, v). split; [done|].
      apply list_elem_of_filter. split; [|done].
      destruct Hor as [Hcf|[->|Hnamed]].
      * left. simpl. by rewrite Hcf.
      * by right; left.
      * right; right. simpl. split_and!; try done.
        all: intros ->; simpl in Hnamed; by apply elem_of_nil in Hnamed.
    + intros c Hall. split.
      * intros v Hin. apply list_elem_of_fmap in Hin as ([f v'] & Heq & Hin).
        simpl in Heq. injection Heq as -> ->. by eapply Hskip.
      * intros k. unfold stored_value. simpl.
        destruct pk_val as [k0|]; [|done]. simpl in *.
        destruct (decide (k = k0)) as [->|Hne]; [|by rewrite lookup_insert_ne].
        rewrite lookup_insert_eq, Hrow. simpl.
        apply saved_row_other. intros f v Hin Hc. by eapply Hskip.
  - eexists _, _. split; [done|]. simpl. split_and!; try done.
    + intros f v Hin Hor. apply list_elem_of_fmap. exists (f, v). split; [done|].
      apply list_elem_of_filter. split; [|done].
      destruct Hor as [Hcf|[->|Hnamed]].
      * left. simpl. by rewrite Hcf.
      * by right; left.
      * right; right. simpl. split_and!; try done.
        all: intros ->; simpl in Hnamed; by apply elem_of_nil in Hnamed.
    + intros c Hall. split; [|done].
      intros v Hin. apply list_elem_of_fmap in Hin as ([f v'] & Heq & Hin).
      simpl in Heq. injection Heq as -> ->. by eapply Hskip.
Qed.

Lemma update_skips_counters_witness :
  ∃ (kept : list (string * PyValue)) updated w',
    _model_do_update (Some 7%Z)
      [({| field_attname := "n"; is_CounterField := true |}, PyInt 99);
       ({| field_attname := "title"; is_CounterField := false |}, PyInt 1)]
      None two_writers = (Ok updated, w') ∧
    ("title", PyInt 1) ∈ kept ∧ (∀ v, ("n", v) ∉ kept) ∧
    stored_value w' 7 "n" = Some 10%Z.
Proof.
  destruct (update_skips_counters (Some 7%Z)
              [({| field_attname := "n"; is_CounterField := true |}, PyInt 99);
               ({| field_attname := "title"; is_CounterField := false |}, PyInt 1)]
              None two_writers)
    as (kept & updated & w' & Hrun & _ & _ & Hkept & Hskip).
  exists kept, updated, w'. split; [exact Hrun|]. split.
  - apply (Hkept {| field_attname := "title"; is_CounterField := false |} (PyInt 1)).
    + right. left.
    + left. reflexivity.
  - destruct (Hskip "n") as [Hnot Hstored].
    + intros f v Hin Hc.
      apply elem_of_cons in Hin as [Heq|Hin].
      * injection Heq as -> ->. split_and!; [reflexivity|discriminate|].
        simpl. apply not_elem_of_nil.
      * apply elem_of_cons in Hin as [Heq|Hin].
        -- injection Heq as -> ->. simpl in Hc. discriminate Hc.
        -- by apply elem_of_nil in Hin.
    + split; [exact Hnot|]. rewrite Hstored. vm_compute. reflexivity.
Defined.

(** ** [_increment] and [_decrement] at the edges *)

(** What [_increment] and [_decrement] run for a delta other than 0. *)
Lemma _increment_steps self i inst reload delta w :
  objects w !! i = Some inst → delta ≠ 0%Z →
  _increment self i reload delta w =
    (queryset_update (pk inst) (attname self) (expr_add (F (attname self)) delta) ;;;
     when reload (_reload self i)) w.
Proof.
  intros Hi Hd. unfold _increment.
  rewrite (proj2 (Z.eqb_neq delta 0) Hd). simpl. unfold bind at 1.
  by rewrite (deref_run i inst w Hi).
Qed.

Lemma _decrement_steps self i inst reload delta w :
  objects w !! i = Some inst → delta ≠ 0%Z →
  _decrement self i reload delta w =
    (queryset_update (pk inst) (attname self) (expr_sub (F (attname self)) delta) ;;;
     when reload (_reload self i)) w.
Proof.
  intros Hi Hd. unfold _decrement.
  rewrite (proj2 (Z.eqb_neq delta 0) Hd). simpl. unfold bind at 1.
  by rewrite (deref_run i inst w Hi).
Qed.

Lemma assign_undo c delta (row : Row) :
  assign c (eval (assign c (eval row (expr_add (F c) delta)) row)
              (expr_sub (F c) delta))
    (assign c (eval row (expr_add (F c) delta)) row) = row.
Proof.
  simpl. destruct (row !! c) as [x|] eqn:Hx; simpl.
  - rewrite lookup_insert_eq. simpl. rewrite insert_insert_eq.
    apply insert_id. rewrite Hx. f_equal. lia.
  - rewrite lookup_delete_eq. simpl. rewrite delete_delete_eq. by apply delete_id.
Qed.

(** X20. [_decrement] undoes [_increment]: for any delta, 0 included,
    and any instance, saved or not, an increment followed by a decrement
    by the same delta (without reloading) returns and leaves the table as
    it was, a NULL counter included, and no object in memory is touched. *)
Theorem increment_then_decrement self i inst delta w :
  objects w !! i = Some inst →
  ∃ w',
    (_increment self i false delta ;;; _decrement self i false delta) w
      = (Ok tt, w') ∧
    table w' = table w ∧ objects w' = objects w.
Proof.
  intros Hi. unfold bind at 1.
  destruct (decide (delta = 0%Z)) as [->|Hd]; [by exists w|].
  rewrite (_increment_steps self i inst false delta w Hi Hd).
  destruct (pk inst) as [k|] eqn:Hk.
  - unfold bind at 1. rewrite queryset_update_run. simpl.
    rewrite (_decrement_steps self i inst false delta); [|done..].
    rewrite Hk. unfold bind at 1. rewrite queryset_update_run. simpl.
    eexists. split; [done|]. simpl. split; [|done].
    apply map_eq. intros k'.
    destruct (decide (k = k')) as [<-|Hne]; [|by rewrite !lookup_alter_ne].
    rewrite !lookup_alter_eq.
    destruct (table w !! k) as [row|]; [|done].
    unfold fmap, option_fmap, option_map. f_equal.
    exact (assign_undo (attname self) delta row).
  - unfold bind at 1, queryset_update, bind at 1. rewrite emit_run. simpl.
    rewrite (_decrement_steps self i inst false delta); [|done..].
    rewrite Hk. unfold bind at 1, queryset_update, bind at 1. rewrite emit_run.
    simpl. by eexists.
Qed.

Lemma increment_then_decrement_witness :
  ∃ w',
    (_increment counter_n 1 false 5 ;;; _decrement counter_n 1 false 5) two_writers
      = (Ok tt, w') ∧
    table w' = table two_writers ∧ objects w' = objects two_writers.
Proof.
  apply (increment_then_decrement counter_n 1
           {| pk := Some 7%Z; attrs := {[ "n" := PyInt 10 ]} |}).
  vm_compute. reflexivity.
Defined.

(** X21. [_increment] and [_decrement] on an instance that has no row
    (not saved yet, or deleted), delta not 0: without the reload the
    update is sent, the call returns and nothing changes; with the reload
    (the default) the read that follows finds no row and the call raises
    [IndexError], again with objects and table as before. *)
Theorem increment_without_row self i inst delta w :
  objects w !! i = Some inst → pk inst ≫= (λ k, table w !! k) = None →
  delta ≠ 0%Z →
  ∀ reload,
    ∃ w1 w2,
      _increment self i reload delta w =
        (if reload then Raise IndexError else Ok tt, w1) ∧
      _decrement self i reload delta w =
        (if reload then Raise IndexError else Ok tt, w2) ∧
      table w1 = table w ∧ objects w1 = objects w ∧
      table w2 = table w ∧ objects w2 = objects w ∧
      events w1 = events w ++
        UpdateQuery (pk inst) (attname self)
          (CombinedExpression (F (attname self)) ADD (Value delta)) ::
        (if reload then [ValuesQuery (pk inst) [attname self]] else []) ∧
      events w2 = events w ++
        UpdateQuery (pk inst) (attname self)
          (CombinedExpression (F (attname self)) SUB (Value delta)) ::
        (if reload then [ValuesQuery (pk inst) [attname self]] else []).
Proof.
  intros Hi Hnone Hd reload.
  assert (∀ e,
            queryset_update (pk inst) (attname self) e w =
              (Ok tt,
               {| objects := objects w; table := table w; _locks := _locks w;
                  events := events w ++ [UpdateQuery (pk inst) (attname self) e] |}))
    as Hupdate.
  { intros e. destruct (pk inst) as [k|]; [|done]. simpl in Hnone.
    rewrite queryset_update_run. do 2 f_equal.
    apply map_eq. intros k'. destruct (decide (k = k')) as [<-|Hne].
    - by rewrite lookup_alter_eq, Hnone.
    - by rewrite lookup_alter_ne. }
  rewrite (_increment_steps self i inst reload delta w Hi Hd).
  rewrite (_decrement_steps self i inst reload delta w Hi Hd).
  unfold bind. rewrite !Hupdate.
  destruct reload; simpl.
  - unfold _reload.
    rewrite !(_reload_model_instance_fail i inst); [|done..].
    simpl. eexists _, _. split; [done|]. split; [done|]. simpl.
    by rewrite <- !app_assoc.
  - eexists _, _. split; [done|]. split; [done|]. done.
Qed.

Lemma increment_without_row_witness :
  ∃ w1, _increment counter_n 3 true 1 two_writers = (Raise IndexError, w1) ∧
        table w1 = table two_writers.
Proof.
  destruct (increment_without_row counter_n 3 {| pk := None; attrs := ∅ |} 1
              two_writers) with (reload := true)
    as (w1 & w2 & Hrun & _ & Ht & _).
  - vm_compute. reflexivity.
  - reflexivity.
  - lia.
  - exists w1. split; [exact Hrun|exact Ht].
Defined.


End CounterMore.

(** * Properties of the batch updates *)

Module CounterManyFacts.
Import Counter CounterFacts CounterMany.

Lemma world_eta (w : World) :
  {| objects := objects w; table := table w; events := events w |} = w.
Proof. by destruct w. Qed.

Lemma lift_deref mi inst w :
  objects w !! mi = Some inst → lift (deref mi) w = (Ok inst, w).
Proof.
  intros Hi. unfold lift. rewrite (deref_run mi inst); [|done]. simpl.
  by rewrite app_nil_r, world_eta.
Qed.

(** The dictionary that [_update_values] builds. *)
Lemma update_values_lookup (values : gmap string Z) multiplier c :
  map_imap (λ attname value,
              if (value =? 0)%Z then None
              else Some (expr_add (F attname) (value * multiplier)))
           values !! c =
    values !! c ≫= λ value,
      if (value =? 0)%Z then None else Some (expr_add (F c) (value * multiplier)).
Proof. by rewrite map_lookup_imap. Qed.

Lemma assign_many_lookup (values : gmap string QueryExpression) (row : Row) c :
  assign_many values row !! c =
    match values !! c with
    | Some e => eval row e
    | None => row !! c
    end.
Proof.
  unfold assign_many. rewrite lookup_merge. unfold diag_None.
  by destruct (values !! c), (row !! c).
Qed.

(** [_update_values] when some value is not 0, without the reload. *)
Lemma _update_values_run mi inst (values : gmap string Z) multiplier w c v :
  objects w !! mi = Some inst → values !! c = Some v → v ≠ 0%Z →
  _update_values mi values false multiplier w =
    let update_values :=
      map_imap (λ attname value,
                  if (value =? 0)%Z then None
                  else Some (expr_add (F attname) (value * multiplier)))
               values in
    (Ok tt,
     {| objects := objects w;
        table := match pk inst with
                 | Some k => alter (assign_many update_values) k (table w)
                 | None => table w
                 end;
        events := events w ++ [UpdateManyQuery (pk inst) update_values] |}).
Proof.
  intros Hi Hc Hv. unfold _update_values, _set_values.
  rewrite bool_decide_eq_false_2.
  2: { apply (map_size_ne_0_lookup_2 _ c). rewrite update_values_lookup, Hc. simpl.
       rewrite (proj2 (Z.eqb_neq v 0) Hv). eauto. }
  simpl. unfold bind at 1. rewrite (lift_deref mi inst w Hi).
  unfold queryset_update_many, bind, modify. simpl.
  by destruct (pk inst).
Qed.

(** X15. [increment_many] and [decrement_many] with nothing to change: when
    the dictionary is empty or every value in it is 0, nothing is sent to
    the storage engine and nothing is reloaded, whatever [reload_object]
    says and whether or not the instance is saved. *)
Theorem update_many_nothing_to_do mi (values : gmap string Z) reload w :
  (∀ c v, values !! c = Some v → v = 0%Z) →
  increment_many mi values reload w = (Ok tt, w) ∧
  decrement_many mi values reload w = (Ok tt, w).
Proof.
  intros Hzero.
  assert (∀ multiplier,
            map_imap (λ attname value,
                        if (value =? 0)%Z then None
                        else Some (expr_add (F attname) (value * multiplier)))
                     values = ∅) as Hempty.
  { intros multiplier. apply map_empty. intros c. rewrite update_values_lookup.
    destruct (values !! c) as [v|] eqn:Hc; [|done]. simpl.
    by rewrite (Hzero c v Hc). }
  unfold increment_many, decrement_many, _update_values.
  rewrite !Hempty. unfold _set_values. by rewrite map_size_empty.
Qed.

Lemma update_many_nothing_to_do_witness :
  increment_many 1 {[ "n" := 0%Z; "m" := 0%Z ]} true two_counters =
    (Ok tt, two_counters) ∧
  decrement_many 1 {[ "n" := 0%Z; "m" := 0%Z ]} true two_counters =
    (Ok tt, two_counters).
Proof.
  apply (update_many_nothing_to_do 1 {[ "n" := 0%Z; "m" := 0%Z ]} true two_counters).
  intros c v H.
  apply lookup_insert_Some in H as [[_ <-]|[_ H]]; [reflexivity|].
  apply lookup_singleton_Some in H as [_ <-]. reflexivity.
Defined.

Lemma _update_values_effect mi inst k (values : gmap string Z) w c0 v0 multiplier :
  objects w !! mi = Some inst → pk inst = Some k →
  values !! c0 = Some v0 → v0 ≠ 0%Z →
  ∃ update_values w',
    _update_values mi values false multiplier w = (Ok tt, w') ∧
    events w' = events w ++ [UpdateManyQuery (Some k) update_values] ∧
    (∀ c, update_values !! c =
          values !! c ≫= λ v,
            if (v =? 0)%Z then None
            else Some (CombinedExpression (F c) ADD (Value (v * multiplier)))) ∧
    objects w' = objects w ∧
    (∀ c, stored_value w' k c =
          match values !! c with
          | Some v => (λ x, x + v * multiplier)%Z <$> stored_value w k c
          | None => stored_value w k c
          end) ∧
    (∀ k', k' ≠ k → table w' !! k' = table w !! k').
Proof.
  intros Hi Hk Hc0 Hv0.
  rewrite (_update_values_run mi inst values multiplier w c0 v0 Hi Hc0 Hv0).
  rewrite Hk. simpl. eexists _, _. split; [done|]. simpl. split_and!; try done.
  - intros c. apply update_values_lookup.
  - intros c. unfold stored_value. simpl. rewrite lookup_alter_eq.
    destruct (table w !! k) as [row|]; simpl.
    + rewrite assign_many_lookup, update_values_lookup.
      destruct (values !! c) as [v|]; simpl; [|done].
      destruct (Z.eqb_spec v 0) as [->|Hne]; simpl.
      * destruct (row !! c); simpl; [|done]. f_equal. lia.
      * by destruct (row !! c).
    + by destruct (values !! c).
  - intros k' Hne. by rewrite lookup_alter_ne.
Qed.

(** X16. [increment_many] and [decrement_many] are one statement: for an
    instance with a primary key and a dictionary with a value other than
    0, exactly one update is sent, filtered by the primary key, that sets
    each column with a value other than 0 to [F(column) + value]
    ([F(column) + -value] for a decrement) and names no other column; in
    the stored row each named column moves by its value, every other
    column and every other row stays, and no object in memory is touched. *)
Theorem update_many_one_statement mi inst k (values : gmap string Z) w c0 v0 :
  objects w !! mi = Some inst → pk inst = Some k →
  values !! c0 = Some v0 → v0 ≠ 0%Z →
  (∃ update_values w',
     increment_many mi values false w = (Ok tt, w') ∧
     events w' = events w ++ [UpdateManyQuery (Some k) update_values] ∧
     (∀ c, update_values !! c =
           values !! c ≫= λ v,
             if (v =? 0)%Z then None
             else Some (CombinedExpression (F c) ADD (Value v))) ∧
     objects w' = objects w ∧
     (∀ c, stored_value w' k c =
           match values !! c with
           | Some v => (λ x, x + v)%Z <$> stored_value w k c
           | None => stored_value w k c
           end) ∧
     (∀ k', k' ≠ k → table w' !! k' = table w !! k')) ∧
  (∃ update_values w',
     decrement_many mi values false w = (Ok tt, w') ∧
     events w' = events w ++ [UpdateManyQuery (Some k) update_values] ∧
     (∀ c, update_values !! c =
           values !! c ≫= λ v,
             if (v =? 0)%Z then None
             else Some (CombinedExpression (F c) ADD (Value (- v)))) ∧
     objects w' = objects w ∧
     (∀ c, stored_value w' k c =
           match values !! c with
           | Some v => (λ x, x - v)%Z <$> stored_value w k c
           | None => stored_value w k c
           end) ∧
     (∀ k', k' ≠ k → table w' !! k' = table w !! k')).
Proof.
  intros Hi Hk Hc0 Hv0. split.
  - destruct (_update_values_effect mi inst k values w c0 v0 1 Hi Hk Hc0 Hv0)
      as (uv & w' & Hrun & Hev & Huv & Hobj & Hst & Hoth).
    exists uv, w'. split_and!; try done.
    + intros c. rewrite Huv. destruct (values !! c) as [v|]; simpl; [|done].
      by rewrite Z.mul_1_r.
    + intros c. rewrite Hst. destruct (values !! c) as [v|]; [|done].
      destruct (stored_value w k c); simpl; [|done]. f_equal. lia.
  - destruct (_update_values_effect mi inst k values w c0 v0 (-1) Hi Hk Hc0 Hv0)
      as (uv & w' & Hrun & Hev & Huv & Hobj & Hst & Hoth).
    exists uv, w'. split_and!; try done.
    + intros c. rewrite Huv. destruct (values !! c) as [v|]; simpl; [|done].
      destruct (v =? 0)%Z; [done|]. do 3 f_equal. lia.
    + intros c. rewrite Hst. destruct (values !! c) as [v|]; [|done].
      destruct (stored_value w k c); simpl; [|done]. f_equal. lia.
Qed.

Lemma update_many_one_statement_witness :
  ∃ update_values w',
    increment_many 1 {[ "n" := 2%Z; "m" := 0%Z ]} false two_counters = (Ok tt, w') ∧
    events w' = events two_counters ++ [UpdateManyQuery (Some 7%Z) update_values] ∧
    update_values !! "m" = None ∧
    stored_value w' 7 "n" = Some 12%Z ∧ stored_value w' 7 "m" = Some 3%Z.
Proof.
  destruct (update_many_one_statement 1
              {| pk := Some 7%Z; attrs := {[ "n" := PyInt 10; "m" := PyInt 3 ]} |}
              7 {[ "n" := 2%Z; "m" := 0%Z ]} two_counters "n" 2)
    as [(uv & w' & Hrun & Hev & Huv & _ & Hst & _) _].
  - vm_compute. reflexivity.
  - reflexivity.
  - vm_compute. reflexivity.
  - lia.
  - exists uv, w'. split; [exact Hrun|]. split; [exact Hev|].
    split; [rewrite Huv; vm_compute; reflexivity|].
    rewrite !Hst. split; vm_compute; reflexivity.
Defined.

(** The update that undoes another. *)
Lemma assign_many_undo (values : gmap string Z) (row : Row) :
  assign_many
    (map_imap (λ attname value,
                 if (value =? 0)%Z then None
                 else Some (expr_add (F attname) (value * -1))) values)
    (assign_many
       (map_imap (λ attname value,
                    if (value =? 0)%Z then None
                    else Some (expr_add (F attname) (value * 1))) values) row) = row.
Proof.
  apply map_eq. intros c.
  rewrite assign_many_lookup, update_values_lookup.
  destruct (values !! c) as [v|] eqn:Hc; simpl.
  - destruct (v =? 0)%Z eqn:Hv; simpl.
    + by rewrite assign_many_lookup, update_values_lookup, Hc; simpl; rewrite Hv.
    + rewrite assign_many_lookup, update_values_lookup, Hc. simpl. rewrite Hv.
      simpl. destruct (row !! c); simpl; [|done]. f_equal. lia.
  - by rewrite assign_many_lookup, update_values_lookup, Hc.
Qed.

Lemma _update_values_idle mi (values : gmap string Z) reload multiplier w :
  size (map_imap (λ attname value,
                    if (value =? 0)%Z then None
                    else Some (expr_add (F attname) (value * multiplier))) values)
    = 0%nat →
  _update_values mi values reload multiplier w = (Ok tt, w).
Proof.
  intros Hsize. unfold _update_values, _set_values.
  by rewrite bool_decide_eq_true_2.
Qed.

Lemma update_values_size (values : gmap string Z) m1 m2 :
  size (map_imap (λ attname value,
                    if (value =? 0)%Z then None
                    else Some (expr_add (F attname) (value * m1))) values) = 0%nat →
  size (map_imap (λ attname value,
                    if (value =? 0)%Z then None
                    else Some (expr_add (F attname) (value * m2))) values) = 0%nat.
Proof.
  rewrite !map_size_empty_iff, !map_empty. intros H c. specialize (H c).
  rewrite update_values_lookup in *.
  destruct (values !! c) as [v|]; simpl in *; [|done]. by destruct (v =? 0)%Z.
Qed.

(** X17. [decrement_many] undoes [increment_many]: for any dictionary,
    incrementing and then decrementing by it (without reloading) returns
    and leaves the table exactly as it was, NULL columns included, and no
    object in memory is touched. *)
Theorem increment_then_decrement_many mi inst (values : gmap string Z) w :
  objects w !! mi = Some inst →
  ∃ w',
    (increment_many mi values false ;;; decrement_many mi values false) w
      = (Ok tt, w') ∧
    table w' = table w ∧ objects w' = objects w.
Proof.
  intros Hi. unfold increment_many, decrement_many, bind.
  destruct (decide (size (map_imap (λ attname value,
                    if (value =? 0)%Z then None
                    else Some (expr_add (F attname) (value * 1))) values) = 0%nat))
    as [Hsize|Hsize].
  - rewrite (_update_values_idle mi values false 1 w Hsize).
    rewrite (_update_values_idle mi values false (-1) w)
      by by apply (update_values_size values 1).
    by exists w.
  - apply map_size_ne_0_lookup_1 in Hsize as [c [e Hc]].
    rewrite update_values_lookup in Hc.
    destruct (values !! c) as [v|] eqn:Hv; simpl in Hc; [|done].
    destruct (Z.eqb_spec v 0) as [->|Hne]; [done|].
    rewrite (_update_values_run mi inst values 1 w c v Hi Hv Hne). simpl.
    rewrite (_update_values_run mi inst values (-1) _ c v); [|done..].
    simpl. eexists. split; [done|]. simpl. split; [|done].
    destruct (pk inst) as [k|]; [|done].
    apply map_eq. intros k'.
    destruct (decide (k = k')) as [<-|Hk]; [|by rewrite !lookup_alter_ne].
    rewrite !lookup_alter_eq.
    destruct (table w !! k) as [row|]; simpl; [|done].
    by rewrite assign_many_undo.
Qed.

Lemma increment_then_decrement_many_witness :
  ∃ w',
    (increment_many 1 {[ "n" := 2%Z; "m" := 5%Z ]} false ;;;
     decrement_many 1 {[ "n" := 2%Z; "m" := 5%Z ]} false) two_counters
      = (Ok tt, w') ∧
    table w' = table two_counters ∧ objects w' = objects two_counters.
Proof.
  apply (increment_then_decrement_many 1
           {| pk := Some 7%Z; attrs := {[ "n" := PyInt 10; "m" := PyInt 3 ]} |}).
  vm_compute. reflexivity.
Defined.

(** ** With the reload *)

(** [_update_values] when some value is not 0, up to the reload. *)
Lemma _update_values_reload mi inst (values : gmap string Z) multiplier w c v :
  objects w !! mi = Some inst → values !! c = Some v → v ≠ 0%Z →
  _update_values mi values true multiplier w =
    let update_values :=
      map_imap (λ attname value,
                  if (value =? 0)%Z then None
                  else Some (expr_add (F attname) (value * multiplier)))
               values in
    lift (_reload_model_instance mi (map_to_list update_values).*1)
      {| objects := objects w;
         table := match pk inst with
                  | Some k => alter (assign_many update_values) k (table w)
                  | None => table w
                  end;
         events := events w ++ [UpdateManyQuery (pk inst) update_values] |}.
Proof.
  intros Hi Hc Hv. unfold _update_values, _set_values.
  rewrite bool_decide_eq_false_2.
  2: { apply (map_size_ne_0_lookup_2 _ c). rewrite update_values_lookup, Hc. simpl.
       rewrite (proj2 (Z.eqb_neq v 0) Hv). eauto. }
  simpl. unfold bind at 1. rewrite (lift_deref mi inst w Hi).
  unfold queryset_update_many, bind, modify. simpl.
  by destruct (pk inst).
Qed.

(** The names that are reloaded are the columns that were updated. *)
Lemma update_values_names (values : gmap string Z) multiplier c :
  c ∈ (map_to_list
         (map_imap (λ attname value,
                      if (value =? 0)%Z then None
                      else Some (expr_add (F attname) (value * multiplier)))
                   values)).*1
  ↔ ∃ v, values !! c = Some v ∧ v ≠ 0%Z.
Proof.
  rewrite list_elem_of_fmap. split.
  - intros ([c' e] & -> & Hin). apply elem_of_map_to_list in Hin. simpl.
    rewrite update_values_lookup in Hin.
    destruct (values !! c') as [v|]; simpl in Hin; [|done].
    destruct (Z.eqb_spec v 0); [done|]. eauto.
  - intros (v & Hc & Hv).
    exists (c, expr_add (F c) (v * multiplier)). split; [done|].
    apply elem_of_map_to_list. rewrite update_values_lookup, Hc. simpl.
    by rewrite (proj2 (Z.eqb_neq v 0) Hv).
Qed.

Lemma lift_reload_run i inst k (row : Row) names w :
  objects w !! i = Some inst → pk inst = Some k → table w !! k = Some row →
  names ≠ [] →
  lift (_reload_model_instance i names) w =
    (Ok tt,
     {| objects :=
          <[i := {| pk := pk inst;
                    attrs := foldl (λ a name, <[name := from_db (row !! name)]> a)
                               (attrs inst) names |}]> (objects w);
        table := table w;
        events := events w ++ [Single (ValuesQuery (Some k) names)] |}).
Proof.
  intros Hi Hk Hrow Hne. unfold lift.
  by rewrite (CounterMore._reload_model_instance_run i inst k row names).
Qed.

Lemma lift_reload_fail i inst names w :
  objects w !! i = Some inst → pk inst ≫= (λ k, table w !! k) = None →
  lift (_reload_model_instance i names) w =
    (Raise IndexError,
     {| objects := objects w;
        table := table w;
        events := events w ++ [Single (ValuesQuery (pk inst) names)] |}).
Proof.
  intros Hi Hnone. unfold lift.
  by rewrite (CounterMore._reload_model_instance_fail i inst names).
Qed.

(** X18. [_update_values] with [reload_object] true (the default of
    [increment_many] and [decrement_many]) on a saved instance, some value
    not 0: one update, then one read of exactly the updated columns; each
    of these attributes of the instance ends as the value now stored, and
    an attribute whose value in the dictionary is 0 or absent keeps what it
    held in memory. *)
Theorem update_many_reloads_updated mi inst k (row : Row) (values : gmap string Z)
    multiplier w c0 v0 :
  objects w !! mi = Some inst → pk inst = Some k → table w !! k = Some row →
  values !! c0 = Some v0 → v0 ≠ 0%Z →
  ∃ w' inst' update_values names,
    _update_values mi values true multiplier w = (Ok tt, w') ∧
    events w' = events w ++ [UpdateManyQuery (Some k) update_values;
                             Single (ValuesQuery (Some k) names)] ∧
    (∀ c, c ∈ names ↔ ∃ v, values !! c = Some v ∧ v ≠ 0%Z) ∧
    objects w' = <[mi := inst']> (objects w) ∧
    pk inst' = Some k ∧
    (∀ c v, values !! c = Some v → v ≠ 0%Z →
       stored_value w' k c = (λ x, x + v * multiplier)%Z <$> row !! c ∧
       getattr inst' c = from_db (stored_value w' k c)) ∧
    (∀ c, (∀ v, values !! c = Some v → v = 0%Z) →
       getattr inst' c = getattr inst c).
Proof.
  intros Hi Hk Hrow Hc0 Hv0.
  rewrite (_update_values_reload mi inst values multiplier w c0 v0 Hi Hc0 Hv0).
  rewrite Hk. simpl.
  set (uv := map_imap _ values).
  rewrite (lift_reload_run mi inst k (assign_many uv row) (map_to_list uv).*1);
    [|done|done|by simpl; rewrite lookup_alter_eq, Hrow|].
  2: { intros Hnil.
       assert (c0 ∈ (map_to_list uv).*1) as Hin
         by (apply update_values_names; eauto).
       rewrite Hnil in Hin. by apply elem_of_nil in Hin. }
  simpl. eexists _, _, uv, _. split; [done|]. simpl. split_and!.
  - by rewrite <- app_assoc.
  - intros c. apply update_values_names.
  - done.
  - done.
  - intros c v Hc Hv.
    assert (stored_value
              {| objects := <[mi := {| pk := pk inst;
                     attrs := foldl (λ a name,
                                <[name := from_db (assign_many uv row !! name)]> a)
                                (attrs inst) (map_to_list uv).*1 |}]> (objects w);
                 table := alter (assign_many uv) k (table w);
                 events := (events w ++ [UpdateManyQuery (Some k) uv]) ++
                           [Single (ValuesQuery (Some k) (map_to_list uv).*1)] |}
              k c = (λ x, x + v * multiplier)%Z <$> row !! c) as Hst.
    { unfold stored_value. simpl. rewrite lookup_alter_eq, Hrow. simpl.
      rewrite assign_many_lookup. unfold uv. rewrite update_values_lookup, Hc.
      simpl. rewrite (proj2 (Z.eqb_neq v 0) Hv). simpl. by destruct (row !! c). }
    split; [exact Hst|]. rewrite Hst.
    unfold getattr. simpl. rewrite CounterMore.reload_attrs_lookup.
    rewrite bool_decide_eq_true_2 by (apply update_values_names; eauto).
    simpl. rewrite assign_many_lookup. unfold uv.
    rewrite update_values_lookup, Hc. simpl.
    rewrite (proj2 (Z.eqb_neq v 0) Hv). simpl. by destruct (row !! c).
  - intros c Hzero. unfold getattr. simpl.
    rewrite CounterMore.reload_attrs_lookup.
    rewrite bool_decide_eq_false_2; [done|].
    intros (v & Hc & Hv)%update_values_names. by apply Hv, Hzero.
Qed.

Lemma update_many_reloads_updated_witness :
  ∃ w' inst',
    increment_many 1 {[ "n" := 2%Z; "m" := 0%Z ]} true two_counters = (Ok tt, w') ∧
    objects w' = <[1%nat := inst']> (objects two_counters) ∧
    getattr inst' "n" = PyInt 12 ∧ getattr inst' "m" = PyInt 3.
Proof.
  destruct (update_many_reloads_updated 1
              {| pk := Some 7%Z; attrs := {[ "n" := PyInt 10; "m" := PyInt 3 ]} |}
              7 {[ "n" := 10%Z; "m" := 3%Z ]} {[ "n" := 2%Z; "m" := 0%Z ]} 1
              two_counters "n" 2)
    as (w' & inst' & uv & names & Hrun & _ & _ & Ho & _ & Hnew & Hold).
  - vm_compute. reflexivity.
  - reflexivity.
  - vm_compute. reflexivity.
  - vm_compute. reflexivity.
  - lia.
  - exists w', inst'. split; [exact Hrun|]. split; [exact Ho|]. split.
    + destruct (Hnew "n" 2%Z) as [Hst ->]; [vm_compute; reflexivity|lia|].
      rewrite Hst. vm_compute. reflexivity.
    + rewrite (Hold "m"); [vm_compute; reflexivity|].
      intros v Hv. vm_compute in Hv. by injection Hv as <-.
Defined.

(** X19. [_update_values] with [reload_object] true on an instance that
    has no row (not saved yet, or deleted), some value not 0: the update is
    sent and changes nothing, the read that follows finds no row and the
    call raises [IndexError]; objects and table are as before. *)
Theorem update_many_reload_without_row mi inst (values : gmap string Z)
    multiplier w c0 v0 :
  objects w !! mi = Some inst → pk inst ≫= (λ k, table w !! k) = None →
  values !! c0 = Some v0 → v0 ≠ 0%Z →
  ∃ w' update_values names,
    _update_values mi values true multiplier w = (Raise IndexError, w') ∧
    objects w' = objects w ∧ table w' = table w ∧
    events w' = events w ++ [UpdateManyQuery (pk inst) update_values;
                             Single (ValuesQuery (pk inst) names)].
Proof.
  intros Hi Hnone Hc0 Hv0.
  rewrite (_update_values_reload mi inst values multiplier w c0 v0 Hi Hc0 Hv0).
  simpl. set (uv := map_imap _ values).
  assert (match pk inst with
          | Some k => alter (assign_many uv) k (table w)
          | None => table w
          end = table w) as Htable.
  { destruct (pk inst) as [k|]; [|done]. simpl in Hnone.
    apply map_eq. intros k'. destruct (decide (k = k')) as [<-|Hne].
    - by rewrite lookup_alter_eq, Hnone.
    - by rewrite lookup_alter_ne. }
  rewrite Htable.
  rewrite (lift_reload_fail mi inst); [|done|done].
  simpl. eexists _, uv, _. split; [done|]. simpl.
  split_and!; [done|done|by rewrite <- app_assoc].
Qed.

Lemma update_many_reload_without_row_witness :
  ∃ w',
    increment_many 2 {[ "n" := 1%Z ]} true
      {| objects := {[ 2%nat := {| pk := None; attrs := ∅ |} ]};
         table := ∅; events := [] |} = (Raise IndexError, w') ∧
    table w' = ∅.
Proof.
  destruct (update_many_reload_without_row 2 {| pk := None; attrs := ∅ |}
              {[ "n" := 1%Z ]} 1
              {| objects := {[ 2%nat := {| pk := None; attrs := ∅ |} ]};
                 table := ∅; events := [] |} "n" 1)
    as (w' & uv & names & Hrun & _ & Ht & _).
  - vm_compute. reflexivity.
  - reflexivity.
  - vm_compute. reflexivity.
  - lia.
  - exists w'. split; [exact Hrun|exact Ht].
Defined.

End CounterManyFacts.
